(** * NdiiClouD bot: delivery queue, connection supervisor, anti-spam and OTP

  A shallow embedding of the outbound-delivery and access-control core of
  the bot (class [MessageQueue], [handleConnectionUpdate],
  [handleReconnect], class [AntiSpam], [botAPI.verifyOTP]) and of the
  serverless verification handler ([api/auth/verify.js]); then of what
  surrounds them: the issuing side of the one-time codes ([cmdSendOTP],
  [api/auth/otp.js]), the bot's message and user files ([saveMessage],
  [updateUserActivity], [botAPI.registerUser]) and the web server's
  sessions ([requireAuth], [requireAdmin], [POST /api/auth/verify]).

  JavaScript numbers that only ever hold small integers (counters,
  millisecond timestamps) are modelled as [Z]; [Map]/[Set]/JSON objects
  used as dictionaries are [gmap]/[gset]; arrays are lists.  Reads of the
  clock ([Date.now()]), outcomes of the transport, outcomes of the writes
  of the queue and statistics files ([fs.writeJsonSync] throws when a write
  fails) and the instants at which the key-value store serves a request
  are inputs of the functions that perform them. *)

From Stdlib Require Import ZArith Lia Ascii Sorted.
From stdpp Require Import gmap strings list.

Local Open Scope Z_scope.

(** ** Anti-spam: sliding window and temporary bans *)

Module AntiSpam.

(** [this.limits] of the constructor. *)
Definition limit_messages : Z := 10.
Definition limit_window : Z := 10000.
Definition limit_blockDuration : Z := 300000.

(** The three object shapes [check] returns. *)
Inductive Verdict :=
| Allowed                          (* { allowed: true } *)
| Banned (remaining : Z)           (* { allowed: false, reason: 'banned', remaining } *)
| SpamDetected (blockDuration : Z) (* { allowed: false, reason: 'spam_detected', blockDuration } *).

(** [messages] and [banned] are the two fields of the class; [timers] is
    the part of the event loop's timer heap owned by [ban]: one entry
    [(deadline, userId)] per pending
    [setTimeout(() => this.banned.delete(userId), blockDuration)]. *)
Record t := mk {
  messages : gmap string (list Z);
  banned : gset string;
  timers : list (Z * string)
}.

Definition init : t := mk ∅ ∅ [].

Definition getRemainingBlock (s : t) (userId : string) : Z :=
  limit_blockDuration.

(** [ban] runs at the instant [now]; the timer it arms is due
    [blockDuration] later. *)
Definition ban (now : Z) (userId : string) (s : t) : t :=
  mk (messages s) ({[userId]} ∪ banned s)
     (timers s ++ [(now + limit_blockDuration, userId)]).

(** The window part of [check], after the ban gate. *)
Definition tally (now : Z) (userId : string) (s : t) : t * Verdict :=
  let userMessages := default [] (messages s !! userId) in
  let recent := filter (λ time, now - time < limit_window) userMessages ++ [now] in
  let s1 := mk (<[userId := recent]> (messages s)) (banned s) (timers s) in
  if bool_decide (Z.of_nat (length recent) > limit_messages)
  then (ban now userId s1, SpamDetected limit_blockDuration)
  else (s1, Allowed).

Definition check (now : Z) (userId : string) (s : t) : t * Verdict :=
  if bool_decide (userId ∈ banned s) then
    let remaining := getRemainingBlock s userId in
    if bool_decide (remaining > 0) then (s, Banned remaining)
    else tally now userId (mk (messages s) (banned s ∖ {[userId]}) (timers s))
  else tally now userId s.

(** The callback of the [i]-th pending timer runs at [now]; a timer never
    runs before it is due. *)
Definition fire (now : Z) (i : nat) (s : t) : option t :=
  match timers s !! i with
  | Some (due, userId) =>
      if bool_decide (due ≤ now)
      then Some (mk (messages s) (banned s ∖ {[userId]}) (delete i (timers s)))
      else None
  | None => None
  end.

(** What can happen to the limiter: an inbound message of [userId] is
    checked, or a due unban timer runs. *)
Inductive Event :=
| ECheck (now : Z) (userId : string)
| EFire (now : Z) (i : nat).

Definition at_time (e : Event) : Z :=
  match e with ECheck now _ => now | EFire now _ => now end.

Definition step (s : t) (e : Event) : option t :=
  match e with
  | ECheck now userId => Some (check now userId s).1
  | EFire now i => fire now i s
  end.

Fixpoint run (s : t) (evs : list Event) : option t :=
  match evs with
  | [] => Some s
  | e :: evs' => match step s e with Some s' => run s' evs' | None => None end
  end.

(** Successive checks of one sender, with their verdicts. *)
Fixpoint checks (userId : string) (times : list Z) (s : t) : t * list Verdict :=
  match times with
  | [] => (s, [])
  | now :: times' =>
      let '(s1, v) := check now userId s in
      let '(s2, vs) := checks userId times' s1 in
      (s2, v :: vs)
  end.

(** The timestamps [5000], [5001], ... of [n] messages one millisecond apart. *)
Definition seq_times (n : nat) : list Z := (λ k, 5000 + Z.of_nat k) <$> seq 0 n.

(** A sender with ten timestamps in the window, about to be banned. *)
Definition ten_recent : t :=
  mk {["62811@s.whatsapp.net" := replicate 10 7000]} ∅ [].

Definition spammer : string := "62811@s.whatsapp.net".

(** [ten_recent] after one more message of the sender at instant 7500. *)
Definition just_banned : t := (check 7500 spammer ten_recent).1.

(** Every pending timer belongs to a banned sender, and no sender has two. *)
Definition wf (s : t) : Prop :=
  (∀ due userId, (due, userId) ∈ timers s → userId ∈ banned s) ∧
  NoDup (timers s).*2.

(** During a burst that starts at [T] and lasts less than a second, the
    sender's history holds timestamps that left the window before [T] and
    timestamps of the burst itself. *)
Definition in_burst (T : Z) (h : Z) : Prop := T ≤ h < T + 1000.
Definition history_ok (T : Z) (userId : string) (s : t) : Prop :=
  ∀ h, h ∈ default [] (messages s !! userId) →
    h + limit_window ≤ T ∨ in_burst T h.
Definition burst_len (T : Z) (userId : string) (s : t) : nat :=
  length (filter (λ h, T ≤ h) (default [] (messages s !! userId))).

End AntiSpam.

(** ** Message queue: [class MessageQueue]

  [process] is an [async] method: it runs synchronously up to the transport
  call made by [send], is suspended until that call settles, and in its
  [catch] block is suspended a second time by [await delay(2000)].  The
  suspended run is the field [awaiting]; the callbacks armed by
  [setTimeout(() => this.process(), 1000)] are counted by [timers].  The
  global [isBotReady], which [process] reads, is an argument.  [save()] is
  called inside the [try] block, inside the [catch] block and by [add]; it
  throws when the write fails, and its outcome is an argument of the step
  that calls it.  An exception that leaves [process] or a handler is logged
  by the handlers of ['unhandledRejection'] and ['uncaughtException'], and
  the bot goes on with the state as it is. *)

Module MessageQueue.

(** What producers pass to [add]. *)
Record Message := mkMessage {
  to : string;
  type : string;
  content : string
}.

(** An object of the [queue] array.  [ref] is the identity of the JavaScript
    object (objects are created by [add], one after the other, so [ref] is
    also the rank of submission); the other fields are its properties. *)
Record Entry := mkEntry {
  ref : nat;
  id : string;
  message : Message;
  addedAt : Z;
  attempts : Z
}.

Definition with_attempts (a : Z) (e : Entry) : Entry :=
  mkEntry (ref e) (id e) (message e) (addedAt e) a.

Definition refs (l : list Entry) : list nat := ref <$> l.

(** Where a run of [process] is suspended; [msg] is the local constant
    [const msg = this.queue[0]]. *)
Inductive Await :=
| AwaitSend (msg : Entry)   (* await this.send(msg) *)
| AwaitDelay                (* await delay(2000) *).

Record t := mk {
  queue : list Entry;
  processing : bool;
  awaiting : option Await;
  timers : nat;
  next_ref : nat;
  (* what has become of the entries, by [ref]: calls of the transport, calls
     that succeeded, entries given up at the third refusal, and entries that
     the [catch] block removed after a write error although the transport had
     neither taken them nor refused them a third time *)
  attempted : list nat;
  delivered : list nat;
  dropped : list nat;
  lost : list nat
}.

(** [constructor], with [load()] returning the persisted array [loaded]. *)
Fixpoint number (k : nat) (loaded : list Entry) : list Entry :=
  match loaded with
  | [] => []
  | e :: rest =>
      mkEntry k (id e) (message e) (addedAt e) (attempts e) :: number (S k) rest
  end.

Definition new (loaded : list Entry) : t :=
  mk (number 0 loaded) false None 0 (length loaded) [] [] [] [].

(** [process()], up to its first suspension. *)
Definition process (isBotReady : bool) (q : t) : t :=
  if processing q || bool_decide (length (queue q) = 0%nat) || negb isBotReady
  then q
  else match queue q with
       | msg :: _ =>
           mk (queue q) true (Some (AwaitSend msg)) (timers q) (next_ref q)
              (attempted q ++ [ref msg]) (delivered q) (dropped q) (lost q)
       | [] => q
       end.

(** [add(message)]: [uuid] is the value of [uuidv4()], [now] of [Date.now()].
    [save()] writes the file with [fs.writeJsonSync], which throws when the
    write fails; [written] tells whether it succeeded.  When it throws, [add]
    throws with the entry pushed and [process()] not called. *)
Definition add (uuid : string) (now : Z) (message : Message) (written : bool)
    (isBotReady : bool) (q : t) : t :=
  let entry := mkEntry (next_ref q) uuid message now 0 in
  let q1 := mk (queue q ++ [entry]) (processing q) (awaiting q) (timers q)
               (S (next_ref q)) (attempted q) (delivered q) (dropped q) (lost q) in
  if written then process isBotReady q1 else q1.

(** Lines 378-381: the end of [process]. *)
Definition finish (q : t) : t :=
  mk (queue q) false None
     (if bool_decide (0 < length (queue q))%nat then S (timers q) else timers q)
     (next_ref q) (attempted q) (delivered q) (dropped q) (lost q).

(** [msg.attempts++] acts on the object [msg] wherever the array holds it. *)
Definition set_attempts (msg : Entry) (a : Z) (l : list Entry) : list Entry :=
  (λ e, if bool_decide (ref e = ref msg) then with_attempts a e else e) <$> l.

(** The [catch] block of [process], up to [await delay(2000)].  It runs when
    the transport refuses [msg] ([sent] is false), and also when the transport
    took [msg] and the [save()] of the [try] block threw ([sent] is true): then
    [msg] has left the array, [msg.attempts++] acts on an object the array no
    longer holds, and the [shift()] at 3 takes the entry behind it.
    [written] is the outcome of the [save()] of the [catch] block: when it
    throws, the run of [process] ends there and [processing] stays set. *)
Definition caught (sent written : bool) (msg : Entry) (q : t) : t :=
  let a := attempts msg + 1 in
  let queue1 := set_attempts msg a (queue q) in
  let next := if written then Some AwaitDelay else None in
  if bool_decide (a >= 3) then
    mk (tail queue1) (processing q) next (timers q) (next_ref q) (attempted q)
       (delivered q)
       (if sent then dropped q else dropped q ++ [ref msg])
       (if sent then lost q ++ refs (take 1 queue1) else lost q)
  else
    mk queue1 (processing q) next (timers q) (next_ref q) (attempted q)
       (delivered q) (dropped q) (lost q).

(** The transport call settles: [ok] (the [try] block goes on with
    [shift()] and [save()]) or not (the [catch] block runs).  [written] is the
    outcome of the first [save()] the run reaches, [rewritten] that of the
    [save()] of the [catch] block when the one of the [try] block threw.
    Between the call and its settlement nothing writes to an entry, so
    [msg.attempts] is still the value the run read when it was suspended. *)
Definition send_settled (ok written rewritten : bool) (q : t) : option t :=
  match awaiting q with
  | Some (AwaitSend msg) =>
      if ok then
        let q1 := mk (tail (queue q)) (processing q) (awaiting q) (timers q)
                     (next_ref q) (attempted q)
                     (delivered q ++ [ref msg]) (dropped q) (lost q) in
        Some (if written then finish q1 else caught true rewritten msg q1)
      else Some (caught false written msg q)
  | _ => None
  end.

(** [delay(2000)] is over. *)
Definition delay_elapsed (q : t) : option t :=
  match awaiting q with
  | Some AwaitDelay => Some (finish q)
  | _ => None
  end.

(** One of the callbacks armed by [finish] runs. *)
Definition timer_fired (isBotReady : bool) (q : t) : option t :=
  match timers q with
  | S n =>
      Some (process isBotReady
              (mk (queue q) (processing q) (awaiting q) n (next_ref q)
                  (attempted q) (delivered q) (dropped q) (lost q)))
  | O => None
  end.

(** *** Invariant of the queue *)

Definition busy (a : option Await) : bool :=
  match a with Some _ => true | None => false end.

(** The array is in order of submission; a queued entry has failed at most
    twice; the transport has been called for entries in order of
    submission, none of them behind the head. *)
Record data_ok (queue : list Entry) (next_ref : nat) (attempted : list nat) : Prop :=
  mk_data_ok {
    ok_sorted : StronglySorted lt (refs queue);
    ok_fresh : Forall (λ r, r < next_ref)%nat (refs queue);
    ok_attempts : Forall (λ e, 0 ≤ attempts e ≤ 2) queue;
    ok_attempted_sorted : StronglySorted le attempted;
    ok_attempted_fresh : Forall (λ r, r < next_ref)%nat attempted;
    ok_attempted_head :
      Forall (λ r, Forall (λ r', r ≤ r')%nat (refs queue)) attempted
  }.

(** [processing] is set while a run is suspended, and a run suspended in
    [send] holds the head of the array, for which it has called the
    transport. *)
Record wf (q : t) : Prop := mk_wf {
  wf_processing : busy (awaiting q) = true → processing q = true;
  wf_head : ∀ msg, awaiting q = Some (AwaitSend msg) → ∃ rest, queue q = msg :: rest;
  wf_data : data_ok (queue q) (next_ref q) (attempted q);
  wf_called : ∀ msg, awaiting q = Some (AwaitSend msg) → ref msg ∈ attempted q
}.

(** A run of [process] has ended in the [save()] of its [catch] block:
    [processing] is set and no run is there to clear it, so every later call
    of [process] returns at its guard. *)
Definition jammed (q : t) : Prop := processing q = true ∧ awaiting q = None.


End MessageQueue.

(** ** The bot: globals, connection supervisor, event loop *)

Module Bot.

Definition MAX_RECONNECT_ATTEMPTS : Z := 10.
Definition RECONNECT_INTERVAL : Z := 5000.

(** [DisconnectReason.loggedOut] of the transport library. *)
Definition loggedOut : Z := 401.

Inductive Connection := connecting | open | close.

(** The argument of the ['connection.update'] handler:
    [lastDisconnect?.error?.output?.statusCode] is [statusCode]. *)
Record Update := mkUpdate {
  connection : option Connection;
  statusCode : option Z;
  qr : bool;
  receivedPendingNotifications : bool
}.

(** [start_timers] holds the delays with which [setTimeout(startBot, delay)]
    has been called, oldest first; [opening] counts the runs of
    [handleConnectionUpdate] suspended in
    [await sendMessage(settings.adminNumber, ...)]. *)
Record t := mk {
  isBotReady : bool;
  reconnectAttempts : Z;
  messageQueue : MessageQueue.t;
  opening : nat;
  start_timers : list Z
}.

Definition init (loaded : list MessageQueue.Entry) : t :=
  mk false 0 (MessageQueue.new loaded) 0 [].

Definition with_queue (f : bool → MessageQueue.t → MessageQueue.t) (s : t) : t :=
  mk (isBotReady s) (reconnectAttempts s) (f (isBotReady s) (messageQueue s))
     (opening s) (start_timers s).

Definition handleReconnect (s : t) : t :=
  let n := reconnectAttempts s + 1 in
  if bool_decide (n > MAX_RECONNECT_ATTEMPTS) then
    mk (isBotReady s) n (messageQueue s) (opening s) (start_timers s ++ [30000])
  else
    let delay := Z.min (RECONNECT_INTERVAL * 2 ^ (n - 1)) 60000 in
    mk (isBotReady s) n (messageQueue s) (opening s) (start_timers s ++ [delay]).

(** [handleConnectionUpdate(update)]; [adminNumber] tells whether
    [settings.adminNumber] is set, [statsWritten] whether the
    [DB.set(FILES.STATS, stats)] of the ['open'] branch succeeds.  When that
    write throws, the handler ends there: the bot is ready, and neither the
    startup notification nor [messageQueue.process()] is reached.  With an
    admin number the handler is suspended in the startup notification and
    goes on in [notify_settled]. *)
Definition handleConnectionUpdate (update : Update) (adminNumber statsWritten : bool)
    (s : t) : t :=
  let s1 :=
    if qr update
    then mk (isBotReady s) 0 (messageQueue s) (opening s) (start_timers s)
    else s in
  match connection update with
  | Some open =>
      let s2 := mk true 0 (messageQueue s1) (opening s1) (start_timers s1) in
      if negb statsWritten then s2
      else if adminNumber
      then mk (isBotReady s2) (reconnectAttempts s2) (messageQueue s2)
              (S (opening s2)) (start_timers s2)
      else with_queue MessageQueue.process s2
  | Some close =>
      let shouldReconnect := bool_decide (statusCode update ≠ Some loggedOut) in
      let s2 := mk false (reconnectAttempts s1) (messageQueue s1)
                   (opening s1) (start_timers s1) in
      if shouldReconnect then handleReconnect s2 else s2
  | _ => s1
  end.

(** The startup notification settles.  [sendMessage] sent it directly
    ([isBotReady] was true).  When the transport refuses it ([ok] is false),
    or takes it and the write of the statistics throws ([statsWritten] is
    false), the [catch] block of [sendMessage] queues it with [add], whose
    [save()] has the outcome [written]; when that throws too, [sendMessage]
    and the handler end there.  Otherwise the handler goes on:
    [messageQueue.process()]. *)
Definition notify_settled (ok statsWritten : bool) (uuid : string) (now : Z)
    (notification : MessageQueue.Message) (written : bool) (s : t) : option t :=
  match opening s with
  | S n =>
      let s1 := mk (isBotReady s) (reconnectAttempts s) (messageQueue s) n
                   (start_timers s) in
      if ok && statsWritten then Some (with_queue MessageQueue.process s1)
      else
        let s2 := with_queue (MessageQueue.add uuid now notification written) s1 in
        Some (if written then with_queue MessageQueue.process s2 else s2)
  | O => None
  end.

Definition lift (f : MessageQueue.t → option MessageQueue.t) (s : t) : option t :=
  q ← f (messageQueue s);
  Some (mk (isBotReady s) (reconnectAttempts s) q (opening s) (start_timers s)).

(** What the event loop dispatches.  The first three come from outside (a
    producer, the transport's connection, [startBot] throwing); the others
    are continuations and timers of the bot itself.  The outcomes of the
    transport and of the writes to disk that a step makes are part of the
    event. *)
Inductive Event :=
| Enqueue (uuid : string) (now : Z) (message : MessageQueue.Message) (written : bool)
| ConnectionUpdate (update : Update) (adminNumber statsWritten : bool)
| StartBotFailed
| SendSettled (ok written rewritten : bool)
| DelayElapsed
| ProcessTimer
| NotifySettled (ok statsWritten : bool) (uuid : string) (now : Z)
    (notification : MessageQueue.Message) (written : bool).

Definition step (s : t) (e : Event) : option t :=
  match e with
  | Enqueue uuid now message written =>
      Some (with_queue (MessageQueue.add uuid now message written) s)
  | ConnectionUpdate update adminNumber statsWritten =>
      Some (handleConnectionUpdate update adminNumber statsWritten s)
  | StartBotFailed => Some (handleReconnect s)
  | SendSettled ok written rewritten =>
      lift (MessageQueue.send_settled ok written rewritten) s
  | DelayElapsed => lift MessageQueue.delay_elapsed s
  | ProcessTimer => lift (MessageQueue.timer_fired (isBotReady s)) s
  | NotifySettled ok statsWritten uuid now notification written =>
      notify_settled ok statsWritten uuid now notification written s
  end.

Fixpoint run (s : t) (evs : list Event) : option t :=
  match evs with
  | [] => Some s
  | e :: evs' => match step s e with Some s' => run s' evs' | None => None end
  end.

(** *** Invariant of the bot *)

(** While the bot is ready, a queue that is not empty is being worked on or
    will be: a run of [process] is suspended, or one of its timers is
    pending, or the handler of the opening connection has yet to call it. *)
Definition live (s : t) : Prop :=
  isBotReady s = true → MessageQueue.queue (messageQueue s) ≠ [] →
  MessageQueue.awaiting (messageQueue s) = None →
  (0 < MessageQueue.timers (messageQueue s) ∨ 0 < opening s)%nat.

(** The queue is well formed, it is being worked on, and no run of
    [process] has ended in a write error.  Every step keeps the first part;
    the steps whose writes succeed keep all of it. *)
Definition Inv (s : t) : Prop :=
  MessageQueue.wf (messageQueue s) ∧ live s ∧ ¬ MessageQueue.jammed (messageQueue s).

(** The events that need nothing from outside. *)
Definition internal (e : Event) : bool :=
  match e with
  | SendSettled _ _ _ | DelayElapsed | ProcessTimer | NotifySettled _ _ _ _ _ _ => true
  | _ => false
  end.


(** The events in which the transport refuses a send of the queue. *)
Definition send_failure (e : Event) : bool :=
  match e with SendSettled false _ _ => true | _ => false end.

(** The events in which no write to disk fails. *)
Definition written_ok (e : Event) : bool :=
  match e with
  | Enqueue _ _ _ written => written
  | ConnectionUpdate _ _ statsWritten => statsWritten
  | SendSettled _ written _ => written
  | NotifySettled _ statsWritten _ _ _ written => statsWritten && written
  | _ => true
  end.

(** The events on which the bot runs on its own while the transport accepts
    what it is given and the disk takes what is written. *)
Definition smooth (e : Event) : Prop :=
  internal e = true ∧ send_failure e = false ∧ written_ok e = true.


(** *** What a step does to the array and to the transport *)

(** The entry [add] creates. *)
Definition new_entry (s : t) (uuid : string) (now : Z) (m : MessageQueue.Message) :=
  MessageQueue.mkEntry (MessageQueue.next_ref (messageQueue s)) uuid m now 0.

(** The array after a step, read off the code: producers push at the
    tail, a settled send shifts the head or rewrites its counter (and, when
    the write after a delivery fails with the counter at 2, shifts the entry
    behind it as well), nothing else touches the array. *)
Definition queue_after (s : t) (e : Event) : option (list MessageQueue.Entry) :=
  let queue := MessageQueue.queue (messageQueue s) in
  match e with
  | Enqueue uuid now m _ => Some (queue ++ [new_entry s uuid now m])
  | NotifySettled ok statsWritten uuid now m _ =>
      if ok && statsWritten then Some queue else Some (queue ++ [new_entry s uuid now m])
  | SendSettled ok written _ =>
      match MessageQueue.awaiting (messageQueue s), queue with
      | Some (MessageQueue.AwaitSend _), msg :: rest =>
          if ok then
            if written then Some rest
            else if bool_decide (MessageQueue.attempts msg + 1 >= 3) then Some (tail rest)
            else Some rest
          else if bool_decide (MessageQueue.attempts msg + 1 >= 3) then Some rest
          else Some (MessageQueue.with_attempts (MessageQueue.attempts msg + 1) msg :: rest)
      | _, _ => None
      end
  | _ => Some queue
  end.

(** A step calls the transport at most once, and then for the head of the
    array, which the suspended run holds, and with the bot ready. *)
Definition calls_head (s s' : t) : Prop :=
  MessageQueue.attempted (messageQueue s') = MessageQueue.attempted (messageQueue s) ∨
  ∃ hd rest, MessageQueue.queue (messageQueue s') = hd :: rest ∧
    MessageQueue.awaiting (messageQueue s') = Some (MessageQueue.AwaitSend hd) ∧
    MessageQueue.attempted (messageQueue s') =
      MessageQueue.attempted (messageQueue s) ++ [MessageQueue.ref hd] ∧
    isBotReady s' = true.

(** *** Running the bot on its own *)








(** *** Sample runs *)

Definition open_update : Update := mkUpdate (Some open) None false false.
Definition hello : MessageQueue.Message := MessageQueue.mkMessage "62811" "text" "hello".

(** Two messages are queued before the connection opens; no admin number
    is configured; every write succeeds. *)
Definition sample_events : list Event :=
  [Enqueue "id-1" 100 hello true; Enqueue "id-2" 200 hello true;
   ConnectionUpdate open_update false true].

(** The state after [sample_events]: the first message is in flight. *)
Definition sending : t :=
  handleConnectionUpdate open_update false true
    (with_queue (MessageQueue.add "id-2" 200 hello true)
       (with_queue (MessageQueue.add "id-1" 100 hello true) (init []))).

Definition first_entry : MessageQueue.Entry := MessageQueue.mkEntry 0 "id-1" hello 100 0.
Definition second_entry : MessageQueue.Entry := MessageQueue.mkEntry 1 "id-2" hello 200 0.

(** The state after the transport has refused the first message once. *)
Definition retried : t :=
  mk true 0
     (MessageQueue.mk [MessageQueue.with_attempts 1 first_entry; second_entry] true
        (Some MessageQueue.AwaitDelay) 0 2 [0%nat] [] [] [])
     0 [].

(** The transport refuses the first message twice and takes it the third
    time; then the write of the queue file fails in the [try] block of
    [process] and succeeds in its [catch] block. *)
Definition refuse : list Event :=
  [SendSettled false true true; DelayElapsed; ProcessTimer].
Definition write_error_events : list Event :=
  sample_events ++ refuse ++ refuse ++ [SendSettled true false true].


(** The delay of the [setTimeout(startBot, _)] that [handleReconnect] arms. *)
Definition armed_delay (s : t) : option Z := last (start_timers (handleReconnect s)).

(** A supervisor that has failed [n] times in a row since the last reset. *)
Definition failed (n : Z) : t := mk false n (MessageQueue.new []) 0 [].

End Bot.

(** ** One-time codes: [botAPI.verifyOTP] and the handler of [api/auth/verify.js] *)

Module Otp.

(** The object stored per target: [{ code, expires, attempts }]. *)
Record OtpRecord := mkOtp {
  code : string;
  expires : Z;
  attempts : Z
}.

Definition bump (data : OtpRecord) : OtpRecord :=
  mkOtp (code data) (expires data) (attempts data + 1).

(** [phone.replace(/[^0-9]/g, '')] *)
Definition is_digit (c : ascii) : bool :=
  let n := nat_of_ascii c in (48 <=? n)%nat && (n <=? 57)%nat.

Fixpoint digits (phone : string) : string :=
  match phone with
  | EmptyString => EmptyString
  | String c rest => if is_digit c then String c (digits rest) else digits rest
  end.

(** *** The bot: the JSON file [FILES.OTP] read by [DB.get] and written by [DB.set] *)

Record Result := mkResult {
  valid : bool;
  message : option string
}.

Definition verifyOTP (now : Z) (phone code' : string)
    (otps : gmap string OtpRecord) : gmap string OtpRecord * Result :=
  match otps !! digits phone with
  | None => (otps, mkResult false (Some "OTP tidak ditemukan"))
  | Some data =>
      if bool_decide (expires data < now)
      then (otps, mkResult false (Some "OTP expired"))
      else if bool_decide (code data ≠ code')
      then (<[digits phone := bump data]> otps, mkResult false (Some "Kode salah"))
      else (delete phone otps, mkResult true None)
  end.

(** [cmdSendOTP]'s write: [DB.update(FILES.OTP, formatted, {...})]. *)
Definition saveOTP (now : Z) (phone code' : string)
    (otps : gmap string OtpRecord) : gmap string OtpRecord :=
  <[digits phone := mkOtp code' (now + 5 * 60 * 1000) 0]> otps.

(** *** The serverless handler: the key-value store with expiring keys *)

Record UserData := mkUser {
  user_id : string;
  name : option string;
  phone : option string;
  email : option string;
  role : string;
  createdAt : Z
}.

Inductive Value :=
| VOtp (otp : OtpRecord)
| VUser (user : UserData).

(** A key with its value and, when set with [{ ex: seconds }], the instant
    at which the store forgets it.  The store is a service of its own: it
    answers a [get] and takes a [set] at instants of its own, which are
    arguments of [kv_get] and [kv_set]; the lifetime of a key runs from the
    instant at which the store takes the [set]. *)
Record Slot := mkSlot {
  value : Value;
  forget_at : option Z
}.

Definition kv_get (asked : Z) (key : string) (kv : gmap string Slot) : option Value :=
  match kv !! key with
  | Some slot =>
      match forget_at slot with
      | Some t => if bool_decide (t ≤ asked) then None else Some (value slot)
      | None => Some (value slot)
      end
  | None => None
  end.

Definition kv_set (stored : Z) (key : string) (v : Value) (ex : option Z)
    (kv : gmap string Slot) : gmap string Slot :=
  <[key := mkSlot v ((λ seconds, stored + seconds * 1000) <$> ex)]> kv.

Definition kv_del (key : string) (kv : gmap string Slot) : gmap string Slot :=
  delete key kv.

Definition ADMIN_SECRET : string := "#6287717274346".

(** [req.body]; a field that is absent is [None]. *)
Record Body := mkBody {
  body_phone : option string;
  body_email : option string;
  body_code : option string;
  body_adminCode : option string
}.

Inductive Response :=
| AdminSession (sessionId : string)               (* 200, isAdmin *)
| Session (sessionId : string) (user : UserData)  (* 200 *)
| BadRequest (error : string)                     (* 400 *).

(** [phone || email]: an empty string is falsy. *)
Definition truthy (x : option string) : bool :=
  match x with Some EmptyString | None => false | Some _ => true end.

Definition target_of (body : Body) : option string :=
  if truthy (body_phone body) then body_phone body else body_email body.

(** [`otp:${target}`] and the like; [undefined] prints as its name. *)
Definition key_of (prefix : string) (target : option string) : string :=
  prefix +:+ default "undefined" target.

Definition or_null (x : option string) : option string :=
  if truthy x then x else None.

(** The handler for a [POST]; [sessionId] and [userId] are the values of
    [generateSessionId()] and [generateId()].  A run of the handler has three
    instants: the store answers its [kv.get] at [asked], then the handler
    reads [Date.now()], which is [now], then the store takes its [kv.set] at
    [stored]; on one time line [asked ≤ now ≤ stored]. *)
Definition handler (asked now stored : Z) (sessionId userId : string) (body : Body)
    (kv : gmap string Slot) : gmap string Slot * Response :=
  if bool_decide (body_adminCode body = Some ADMIN_SECRET) then
    (kv_set stored (key_of "session:" (Some sessionId))
            (VUser (mkUser "admin" (Some "Administrator") (Some "6287717274346") None
                           "admin" now))
            (Some 86400) kv,
     AdminSession sessionId)
  else
    let target := target_of body in
    match kv_get asked (key_of "otp:" target) kv with
    | Some (VOtp otp) =>
        if bool_decide (expires otp < now) then
          (kv_del (key_of "otp:" target) kv, BadRequest "OTP expired")
        else if bool_decide (Some (code otp) ≠ body_code body) then
          (kv_set stored (key_of "otp:" target) (VOtp (bump otp)) (Some 300) kv,
           BadRequest "Invalid code")
        else
          let userData :=
            mkUser userId target (or_null (body_phone body))
                   (or_null (body_email body)) "user" now in
          (kv_set stored (key_of "user:" target) (VUser userData) None
             (kv_set stored (key_of "session:" (Some sessionId)) (VUser userData) (Some 86400)
                (kv_del (key_of "otp:" target) kv)),
           Session sessionId userData)
    | _ => (kv, BadRequest "OTP not found or expired")
    end.

(** *** The four outcomes of the specification *)

Inductive Outcome := Verified | NotFound | Expired | Mismatch.

Definition outcome_of_result (r : Result) : option Outcome :=
  if valid r then Some Verified
  else match message r with
       | Some "OTP tidak ditemukan" => Some NotFound
       | Some "OTP expired" => Some Expired
       | Some "Kode salah" => Some Mismatch
       | _ => None
       end.

Definition outcome_of_response (r : Response) : option Outcome :=
  match r with
  | Session _ _ => Some Verified
  | BadRequest "OTP not found or expired" => Some NotFound
  | BadRequest "OTP expired" => Some Expired
  | BadRequest "Invalid code" => Some Mismatch
  | _ => None
  end.

(** A request of the OTP flow: no admin code. *)
Definition otp_request (target code' : string) : Body :=
  mkBody (Some target) None (Some code') None.

(** Sample stores: a code issued for 628123 that ran out at instant 1000,
    in the bot's file and in the key-value store (forgotten at 400000 after
    a wrong guess refreshed the key), and a live one that runs out at
    300000. *)
Definition stale_file : gmap string OtpRecord :=
  {["628123" := mkOtp "123456" 1000 0]}.
Definition stale_kv : gmap string Slot :=
  {["otp:628123" := mkSlot (VOtp (mkOtp "123456" 1000 1)) (Some 400000)]}.
Definition live_file : gmap string OtpRecord :=
  saveOTP 0 "+628123" "123456" ∅.
Definition live_kv : gmap string Slot :=
  {["otp:+628123" := mkSlot (VOtp (mkOtp "123456" 300000 0)) (Some 300000)]}.

End Otp.

(** ** Issuing codes: the handler of [api/auth/otp.js], and runs of guesses *)

Module Issue.
Import Otp.

(** [req.body] of the issuing handler. *)
Record Body := mkBody {
  body_phone : option string;
  body_email : option string;
  body_type : option string;
  body_adminCode : option string
}.

Inductive Response :=
| AdminSession (sessionId : string)   (* 200, isAdmin *)
| Sent (forwarded : bool)             (* 200; [forwarded]: the bot service was asked *).

Definition target_of (body : Body) : option string :=
  if truthy (body_phone body) then body_phone body else body_email body.

(** The handler for a [POST]; [sessionId] is the value of
    [generateSessionId()], [code'] the six digits drawn from [Math.random()].
    [now] is the value of [Date.now()], read while the argument of [kv.set]
    is built; the store takes the [kv.set] at [stored], with [now ≤ stored].
    The answer of the bot service is only logged. *)
Definition handler (now stored : Z) (sessionId code' : string) (body : Body)
    (kv : gmap string Slot) : gmap string Slot * Response :=
  if bool_decide (body_adminCode body = Some ADMIN_SECRET) then
    (kv_set stored (key_of "session:" (Some sessionId))
            (VUser (mkUser "admin" (Some "Administrator") (Some "6287717274346") None
                           "admin" now))
            (Some 86400) kv,
     AdminSession sessionId)
  else
    let target := target_of body in
    (kv_set stored (key_of "otp:" target)
            (VOtp (mkOtp code' (now + 5 * 60 * 1000) 0)) (Some 300) kv,
     Sent (bool_decide (body_type body = Some "phone") && truthy (body_phone body))).

(** A request for a code for a phone number. *)
Definition phone_request (phone : string) : Body :=
  mkBody (Some phone) None (Some "phone") None.

(** Guesses presented one after the other to the bot's [verifyOTP]: each is an
    instant and a code. *)
Fixpoint guesses (phone : string) (gs : list (Z * string))
    (otps : gmap string OtpRecord) : gmap string OtpRecord :=
  match gs with
  | [] => otps
  | (now, code') :: gs' => guesses phone gs' (verifyOTP now phone code' otps).1
  end.

(** A guess presented to the verification handler of [api/auth/verify.js]:
    the three instants of the run and the code. *)
Record Guess := mkGuess {
  guess_asked : Z;
  guess_now : Z;
  guess_stored : Z;
  guess_code : string
}.

(** The run of a guess is on one time line. *)
Definition in_order (g : Guess) : Prop :=
  guess_asked g ≤ guess_now g ≤ guess_stored g.

Fixpoint kv_guesses (target : string) (gs : list Guess)
    (kv : gmap string Slot) : gmap string Slot :=
  match gs with
  | [] => kv
  | g :: gs' =>
      kv_guesses target gs'
        (Otp.handler (guess_asked g) (guess_now g) (guess_stored g) "" ""
           (otp_request target (guess_code g)) kv).1
  end.

End Issue.

(** ** The limiter observed: which messages were let through *)

Module SpamLog.
Import AntiSpam.

(** The limiter together with the instants of the checks it has answered
    [Allowed], per sender and oldest first. *)
Record t := mk {
  limiter : AntiSpam.t;
  admitted : gmap string (list Z)
}.

Definition start : t := mk init ∅.

Definition admitted_to (userId : string) (l : t) : list Z :=
  default [] (admitted l !! userId).

Definition history (userId : string) (s : AntiSpam.t) : list Z :=
  default [] (messages s !! userId).

Definition observe (l : t) (e : Event) : option t :=
  match e with
  | ECheck now userId =>
      let '(s', v) := check now userId (limiter l) in
      Some (mk s' match v with
                  | Allowed => <[userId := admitted_to userId l ++ [now]]> (admitted l)
                  | _ => admitted l
                  end)
  | EFire now i => s' ← fire now i (limiter l); Some (mk s' (admitted l))
  end.

Fixpoint observe_all (l : t) (evs : list Event) : option t :=
  match evs with
  | [] => Some l
  | e :: evs' => match observe l e with Some l' => observe_all l' evs' | None => None end
  end.

(** The clock does not go back from one event to the next. *)
Definition monotone (evs : list Event) : Prop :=
  StronglySorted (λ e1 e2, at_time e1 ≤ at_time e2) evs.

(** [a] lies in the window of [limit_window] ms that ends at [t]. *)
Definition in_window (t a : Z) : Prop := a ≤ t ∧ t - a < limit_window.

(** What the limiter keeps about the past, seen from the instant [tl] of the
    latest event: the checks it allowed in the last [limit_window] ms are
    still in the sender's history, and no window holds more than
    [limit_messages] of them. *)
Definition remembers (tl : Z) (l : t) : Prop :=
  ∀ userId,
    filter (λ a, tl - a < limit_window) (admitted_to userId l)
      `sublist_of` history userId (limiter l) ∧
    ∀ t, (length (filter (in_window t) (admitted_to userId l)) ≤ 10)%nat.

(** Eleven messages 900 ms apart, then a twelfth after the ban is lifted. *)
Definition slow_burst : list Event :=
  ((λ k, ECheck (900 * Z.of_nat k) spammer) <$> seq 0 11) ++
  [EFire 310000 0; ECheck 310000 spammer].

(** What bounds a sender's history at the instant [tl] of the latest event:
    no stamp is later than [tl]; the history holds at most 10 stamps, or it
    holds the 11 stamps that caused a ban, all of them at least
    [limit_blockDuration] older than the instant the ban ends. *)
Definition bounded (tl : Z) (s : AntiSpam.t) : Prop :=
  ∀ userId,
    Forall (λ h, h ≤ tl) (history userId s) ∧
    ((length (history userId s) ≤ 10)%nat ∨
     length (history userId s) = 11%nat ∧
     ((∃ due, (due, userId) ∈ timers s ∧
         Forall (λ h, h + limit_blockDuration ≤ due) (history userId s)) ∨
      userId ∉ banned s ∧
         Forall (λ h, h + limit_blockDuration ≤ tl) (history userId s))).

(** The sender an event is about: the one whose message is checked, or the
    one whose unban timer runs. *)
Definition owner (s : AntiSpam.t) (e : Event) : option string :=
  match e with
  | ECheck _ userId => Some userId
  | EFire _ i => snd <$> timers s !! i
  end.

(** None of the events [evs], run from [s], is about [userId]. *)
Fixpoint foreign (userId : string) (s : AntiSpam.t) (evs : list Event) : Prop :=
  match evs with
  | [] => True
  | e :: evs' =>
      owner s e ≠ Some userId ∧
      match step s e with Some s' => foreign userId s' evs' | None => True end
  end.

(** Eleven messages of [spammer] 900 ms apart, and another sender. *)
Definition flood : list Event :=
  (λ k, ECheck (900 * Z.of_nat k) spammer) <$> seq 0 11.
Definition bystander : string := "62822@s.whatsapp.net".

End SpamLog.

(** ** The queue audited: calls of the transport and whereabouts of entries *)

Module QueueAudit.
Import MessageQueue.

(** How many times the transport has been called for the entry [r]. *)
Definition calls (r : nat) (q : t) : nat :=
  length (filter (λ x, x = r) (attempted q)).

(** 1 when the suspended run of [process] waits for the send of [r]. *)
Definition in_flight (r : nat) (q : t) : nat :=
  match awaiting q with
  | Some (AwaitSend msg) => if decide (ref msg = r) then 1 else 0
  | _ => 0
  end.

(** The places an entry can be in. *)
Definition places (q : t) : list nat :=
  refs (queue q) ++ delivered q ++ dropped q ++ lost q.

(** A queued entry has been handed to the transport no more often than its
    counter tells, plus the call in flight; an entry that is gone, at most
    three times.  Every entry created so far is in exactly one place. *)
Record audit (q : t) : Prop := mk_audit {
  audit_queued : ∀ e, e ∈ queue q →
    (calls (ref e) q ≤ Z.to_nat (attempts e) + in_flight (ref e) q)%nat;
  audit_gone : ∀ r, r ∉ refs (queue q) → (calls r q ≤ 3)%nat;
  audit_once : NoDup (places q);
  audit_all : ∀ r, (r < next_ref q)%nat ↔ r ∈ places q
}.

(** Two messages queued, the connection opens, and the transport refuses
    the first message three times. *)
Definition refused_thrice : list Bot.Event :=
  Bot.sample_events ++
  [Bot.SendSettled false true true; Bot.DelayElapsed; Bot.ProcessTimer;
   Bot.SendSettled false true true; Bot.DelayElapsed; Bot.ProcessTimer;
   Bot.SendSettled false true true].

End QueueAudit.

(** ** The supervisor observed: failures and the restarts they arm *)

Module Supervisor.
Import Bot.

(** The events after which [handleReconnect] runs: [startBot] throws, or the
    connection closes for a reason other than a logout. *)
Definition failure (e : Event) : bool :=
  match e with
  | StartBotFailed => true
  | ConnectionUpdate update _ _ =>
      match connection update with
      | Some close => bool_decide (statusCode update ≠ Some loggedOut)
      | _ => false
      end
  | _ => false
  end.

Definition failures (evs : list Event) : nat := length (filter (λ e, failure e = true) evs).

(** The counter is not negative and every restart armed so far waits
    between 5 and 60 seconds. *)
Definition paced (s : t) : Prop :=
  0 ≤ reconnectAttempts s ∧ Forall (λ delay, 5000 ≤ delay ≤ 60000) (start_timers s).

Definition close_update (statusCode : option Z) : Update :=
  mkUpdate (Some close) statusCode false false.

(** The connection drops twelve times in a row, then the session is logged
    out. *)
Definition outage : list Event :=
  replicate 12 (ConnectionUpdate (close_update (Some 428)) false true) ++
  [ConnectionUpdate (close_update (Some loggedOut)) false true].

End Supervisor.

(** ** The bot's JSON files: stored messages and users *)

Module Store.

(** [arr.slice(-n)] *)
Definition slice_last {A} (n : nat) (l : list A) : list A := drop (length l - n) l.

(** What [saveMessage] reads of an inbound [msg]: [content] and
    [contentType] are the values of [extractMessageContent(msg)] and
    [getContentType(msg.message)]. *)
Record Inbound := mkInbound {
  key_id : string;
  content : string;
  messageTimestamp : Z;
  contentType : string
}.

(** The object pushed on the chat's array: [{ id, from, content, timestamp, type }]. *)
Record Stored := mkStored {
  stored_id : string;
  stored_from : string;
  stored_content : string;
  timestamp : Z;
  stored_type : string
}.

Definition stored_of (sender : string) (msg : Inbound) : Stored :=
  mkStored (key_id msg) sender (content msg) (messageTimestamp msg) (contentType msg).

(** [FILES.STATS]: the counters written by [saveMessage] and [sendMessage]. *)
Record Stats := mkStats {
  messagesHandled : option Z;
  messagesReceived : option Z;
  messagesSent : option Z
}.

(** [FILES.MESSAGES] and [FILES.STATS]. *)
Definition t : Type := gmap string (list Stored) * Stats.

Definition chat (chatId : string) (db : t) : list Stored := default [] (db.1 !! chatId).

Definition saveMessage (sender : string) (msg : Inbound) (db : t) : t :=
  let pushed := chat sender db ++ [stored_of sender msg] in
  let kept :=
    if bool_decide (1000 < length pushed)%nat then slice_last 1000 pushed else pushed in
  (<[sender := kept]> db.1,
   mkStats (Some (default 0 (messagesHandled db.2) + 1))
           (Some (default 0 (messagesReceived db.2) + 1))
           (messagesSent db.2)).

(** The weekly task: every chat keeps the messages younger than a week;
    [timestamp] is in seconds. *)
Definition clean (now : Z) (db : t) : t :=
  let oneWeekAgo := now - 7 * 24 * 60 * 60 * 1000 in
  (filter (λ m, timestamp m * 1000 > oneWeekAgo) <$> db.1, db.2).

Inductive Event :=
| Save (sender : string) (msg : Inbound)
| Clean (now : Z).

Definition is_save (e : Event) : bool :=
  match e with Save _ _ => true | Clean _ => false end.

Definition step (db : t) (e : Event) : t :=
  match e with
  | Save sender msg => saveMessage sender msg db
  | Clean now => clean now db
  end.

Definition run (db : t) (evs : list Event) : t := foldl step db evs.

(** The objects that the [Save] events of [evs] push for the chat [chatId],
    oldest first. *)
Fixpoint arrivals (chatId : string) (evs : list Event) : list Stored :=
  match evs with
  | [] => []
  | Save sender msg :: evs' =>
      if decide (sender = chatId) then stored_of sender msg :: arrivals chatId evs'
      else arrivals chatId evs'
  | Clean _ :: evs' => arrivals chatId evs'
  end.

(** How many of the events are [Save]s. *)
Definition saved (evs : list Event) : nat :=
  length (filter (λ e, is_save e = true) evs).

Definition empty : t := (∅, mkStats None None None).

(** The [k]-th message of a sender who writes once a second. *)
Definition nth_message (k : nat) : Inbound :=
  mkInbound "ID" "hello" (Z.of_nat k) "conversation".

Definition chatter (sender : string) (n : nat) : list Event :=
  (λ k, Save sender (nth_message k)) <$> seq 0 n.

(** *** Users: [FILES.USERS] *)

(** An entry of the users file.  [updateUserActivity] writes [id], [name],
    [firstSeen], [lastActive] and [messageCount]; [registerUser] writes the
    session data of the server and [registeredAt].  A field that is absent
    is [None]. *)
Record User := mkUser {
  id : string;
  name : string;
  phone : option string;
  email : option string;
  role : option string;
  sessionId : option string;
  createdAt : option Z;
  registeredAt : option Z;
  firstSeen : option Z;
  lastActive : option Z;
  messageCount : option Z
}.

(** [{ id: uuidv4(), name: name || key, firstSeen: Date.now() }] *)
Definition first_seen (uuid : string) (name' : option string) (key : string) (now : Z) : User :=
  mkUser uuid (if Otp.truthy name' then default key name' else key)
         None None None None None None (Some now) None None.

(** The two assignments to [users[key]]. *)
Definition touch (now : Z) (u : User) : User :=
  mkUser (id u) (name u) (phone u) (email u) (role u) (sessionId u) (createdAt u)
         (registeredAt u) (firstSeen u) (Some now)
         (Some (default 0 (messageCount u) + 1)).

(** [uuid] is the value [uuidv4()] has when it is called. *)
Definition updateUserActivity (now : Z) (uuid : string) (phone' : string)
    (name' : option string) (users : gmap string User) : gmap string User :=
  let key := Otp.digits phone' in
  let u := match users !! key with
           | Some u => u
           | None => first_seen uuid name' key now
           end in
  <[key := touch now u]> users.

(** [{ ...data, registeredAt: Date.now() }] *)
Definition registered (now : Z) (data : User) : User :=
  mkUser (id data) (name data) (phone data) (email data) (role data) (sessionId data)
         (createdAt data) (Some now) (firstSeen data) (lastActive data)
         (messageCount data).

Definition registerUser (now : Z) (phone' : string) (data : User)
    (users : gmap string User) : gmap string User :=
  <[Otp.digits phone' := registered now data]> users.

(** What [updateUserActivity] leaves alone in a record that exists. *)
Definition identity (u : User) :=
  (id u, name u, phone u, email u, role u, sessionId u, createdAt u,
   registeredAt u, firstSeen u).

(** A call of [updateUserActivity]. *)
Record Call := mkCall {
  call_now : Z;
  call_uuid : string;
  call_phone : string;
  call_name : option string
}.

Definition activity (cs : list Call) (users : gmap string User) : gmap string User :=
  foldl (λ us c, updateUserActivity (call_now c) (call_uuid c) (call_phone c) (call_name c) us)
        users cs.

(** The calls that concern the user stored under [key]. *)
Definition mine (key : string) (cs : list Call) : list Call :=
  filter (λ c, Otp.digits (call_phone c) = key) cs.

(** One user writing from two devices, and another user in between. *)
Definition three_calls : list Call :=
  [mkCall 100 "u-1" "62811@s.whatsapp.net" (Some "Ani");
   mkCall 200 "u-2" "62822@s.whatsapp.net" None;
   mkCall 300 "u-3" "+62 811" (Some "Ani K")].

End Store.

(** ** The web server: sessions and the verification route *)

Module Server.
Import Store.

(** [activeSessions] of the server, and the two files of the bot that the
    route reaches through [botAPI]. *)
Record t := mk {
  activeSessions : gmap string User;
  otps : gmap string Otp.OtpRecord;
  users : gmap string User
}.

(** The server after it has started: [new Map()]. *)
Definition boot (otps : gmap string Otp.OtpRecord) (users : gmap string User) : t :=
  mk ∅ otps users.

Inductive Response :=
| AdminOk (sessionId : string) (user : User)   (* 200, isAdmin *)
| Ok (sessionId : string) (user : User)        (* 200 *)
| BadRequest (error : option string)           (* 400 *)
| ServerError                                  (* 500 *).

(** [botAPI.verifyOTP(target, code)] for the [code] of a request body, which
    may be absent: [data.code !== undefined] holds for every stored code. *)
Definition verifyOTP (now : Z) (target : string) (code' : option string)
    (otps : gmap string Otp.OtpRecord) : gmap string Otp.OtpRecord * Otp.Result :=
  match code' with
  | Some c => Otp.verifyOTP now target c otps
  | None =>
      match otps !! Otp.digits target with
      | None => (otps, Otp.mkResult false (Some "OTP tidak ditemukan"))
      | Some data =>
          if bool_decide (Otp.expires data < now)
          then (otps, Otp.mkResult false (Some "OTP expired"))
          else (<[Otp.digits target := Otp.bump data]> otps,
                Otp.mkResult false (Some "Kode salah"))
      end
  end.

(** [POST /api/auth/verify]; [sessionId'] and [userId] are the values of the
    calls of [generateId()].  Without [phone] and [email] the call
    [phone.replace] inside [verifyOTP] throws and the route answers 500. *)
Definition verify (now : Z) (sessionId' userId : string) (body : Otp.Body)
    (s : t) : t * Response :=
  if bool_decide (Otp.body_adminCode body = Some Otp.ADMIN_SECRET) then
    let adminData :=
      mkUser "admin" "Administrator" None None (Some "admin") (Some sessionId')
             (Some now) None None None None in
    (mk (<[sessionId' := adminData]> (activeSessions s)) (otps s) (users s),
     AdminOk sessionId' adminData)
  else
    match Otp.target_of body with
    | None => (s, ServerError)
    | Some target =>
        let '(otps', result) := verifyOTP now target (Otp.body_code body) (otps s) in
        if negb (Otp.valid result) then
          (mk (activeSessions s) otps' (users s), BadRequest (Otp.message result))
        else
          let userData :=
            mkUser userId target (Otp.or_null (Otp.body_phone body))
                   (Otp.or_null (Otp.body_email body)) (Some "user") (Some sessionId')
                   (Some now) None None None None in
          (mk (<[sessionId' := userData]> (activeSessions s)) otps'
              (registerUser now target userData (users s)),
           Ok sessionId' userData)
    end.

(** [requireAuth] followed by [requireAdmin], as the admin routes chain
    them; [header] is [req.headers.sessionid], [inBody] is
    [req.body.sessionId]. *)
Inductive Access :=
| Unauthorized           (* 401 *)
| AdminOnly              (* 403 *)
| Granted (session : User).

Definition requireAuth (header inBody : option string) (s : t) : option User :=
  match (if Otp.truthy header then header else inBody) with
  | Some sessionId' => activeSessions s !! sessionId'
  | None => None
  end.

Definition requireAdmin (session : User) : bool :=
  bool_decide (role session = Some "admin").

Definition admin_access (header inBody : option string) (s : t) : Access :=
  match requireAuth header inBody s with
  | None => Unauthorized
  | Some session => if requireAdmin session then Granted session else AdminOnly
  end.

(** A request to the verification route. *)
Record Request := mkRequest {
  req_now : Z;
  req_sessionId : string;
  req_userId : string;
  req_body : Otp.Body
}.

Definition serve (s : t) (reqs : list Request) : t :=
  foldl (λ s r, (verify (req_now r) (req_sessionId r) (req_userId r) (req_body r) s).1)
        s reqs.

(** Every session with the role of the administrator was opened by one of
    the requests [reqs], and that request carried the secret. *)
Definition admins_from (reqs : list Request) (s : t) : Prop :=
  ∀ sid u, activeSessions s !! sid = Some u → role u = Some "admin" →
    ∃ r, r ∈ reqs ∧ Otp.body_adminCode (req_body r) = Some Otp.ADMIN_SECRET ∧
      sid = req_sessionId r ∧ sessionId u = Some sid.

(** A user verifies the code of [Otp.live_file]; then the administrator logs
    in. *)
Definition two_logins : list Request :=
  [mkRequest 5000 "s-1" "u-1" (Otp.otp_request "628123" "123456");
   mkRequest 6000 "s-2" "u-2" (Otp.mkBody None None None (Some Otp.ADMIN_SECRET))].

End Server.

(** * Properties *)

(** ** Anti-spam *)

Section AntiSpamFacts.
Import AntiSpam.

Lemma check_banned now userId s :
  userId ∈ banned s → check now userId s = (s, Banned limit_blockDuration).
Proof.
  intros Hb. unfold check. rewrite bool_decide_eq_true_2 by done.
  unfold getRemainingBlock. by rewrite bool_decide_eq_true_2.
Qed.

Lemma check_not_banned now userId s :
  userId ∉ banned s → check now userId s = tally now userId s.
Proof. intros Hb. unfold check. by rewrite bool_decide_eq_false_2. Qed.

Lemma tally_banned_mono now userId s :
  banned s ⊆ banned (tally now userId s).1.
Proof. unfold tally. case_bool_decide; simpl; set_solver. Qed.

Lemma tally_timers_prefix now userId s :
  timers s `prefix_of` timers (tally now userId s).1.
Proof.
  unfold tally. case_bool_decide; simpl; [by apply prefix_app_r|done].
Qed.

Lemma check_banned_mono now userId s :
  banned s ⊆ banned (check now userId s).1.
Proof.
  destruct (decide (userId ∈ banned s)) as [Hb|Hb].
  - by rewrite check_banned.
  - rewrite check_not_banned by done. apply tally_banned_mono.
Qed.

Lemma check_timers_prefix now userId s :
  timers s `prefix_of` timers (check now userId s).1.
Proof.
  destruct (decide (userId ∈ banned s)) as [Hb|Hb].
  - by rewrite check_banned.
  - rewrite check_not_banned by done. apply tally_timers_prefix.
Qed.

Lemma wf_init : wf init.
Proof. split; [intros ?? H; by apply elem_of_nil in H | constructor]. Qed.

Lemma wf_check now userId s : wf s → wf (check now userId s).1.
Proof.
  intros [Hsub Hnd].
  destruct (decide (userId ∈ banned s)) as [Hb|Hb].
  { rewrite check_banned by done. by split. }
  rewrite check_not_banned by done. unfold tally.
  case_bool_decide; simpl; [|by split].
  split; simpl.
  - intros due u [Hin|Hin]%elem_of_app.
    + apply Hsub in Hin. set_solver.
    + apply list_elem_of_singleton in Hin. set_solver.
  - rewrite fmap_app. apply NoDup_app. split; [done|].
    split; [|apply NoDup_singleton].
    intros u Hu Hu'. apply list_elem_of_singleton in Hu'.
    apply list_elem_of_fmap in Hu as [[due u'] [Heq Hin]].
    simpl in *. apply Hsub in Hin. congruence.
Qed.

Lemma delete_keeps {A} (l : list A) i x y :
  l !! i = Some y → x ∈ l → x ≠ y → x ∈ delete i l.
Proof.
  intros Hi Hx Hne. rewrite delete_take_drop.
  rewrite <- (take_drop_middle l i y Hi) in Hx.
  apply elem_of_app in Hx as [Hx|Hx]; [set_solver|].
  apply elem_of_cons in Hx as [->|Hx]; [done|set_solver].
Qed.

Lemma NoDup_snd_delete (l : list (Z * string)) i due userId due' userId' :
  NoDup l.*2 → l !! i = Some (due, userId) →
  (due', userId') ∈ delete i l → userId' ≠ userId.
Proof.
  intros Hnd Hi Hin. rewrite delete_take_drop in Hin.
  rewrite <- (take_drop_middle l i _ Hi) in Hnd.
  rewrite fmap_app, fmap_cons in Hnd. simpl in Hnd.
  apply NoDup_app in Hnd as (_ & Hl & Hr).
  apply NoDup_cons in Hr as [Hr _].
  apply elem_of_app in Hin as [Hin|Hin]; intros ->.
  - apply (Hl userId); [|left].
    apply list_elem_of_fmap. by exists (due', userId).
  - apply Hr. apply list_elem_of_fmap. by exists (due', userId).
Qed.

Lemma wf_fire now i s s' : wf s → fire now i s = Some s' → wf s'.
Proof.
  intros [Hsub Hnd]. unfold fire.
  destruct (timers s !! i) as [[due userId]|] eqn:Hi; [|done].
  case_bool_decide; [|done]. intros [= <-]. split; simpl.
  - intros due' u Hin. apply elem_of_difference. split.
    + eapply Hsub, list_elem_of_delete_inv, Hin.
    + intros ->%elem_of_singleton.
      by eapply NoDup_snd_delete in Hin.
  - rewrite list_fmap_delete. eapply sublist_NoDup; [exact Hnd|apply sublist_delete].
Qed.

Lemma wf_step s e s' : wf s → step s e = Some s' → wf s'.
Proof.
  destruct e as [now u|now i]; simpl.
  - intros Hwf [= <-]. by apply wf_check.
  - apply wf_fire.
Qed.

(** A pending timer survives every event that happens before it is due. *)
Lemma timer_survives_step s e s' due userId :
  step s e = Some s' → at_time e < due →
  (due, userId) ∈ timers s → (due, userId) ∈ timers s'.
Proof.
  destruct e as [now u|now i]; simpl.
  - intros [= <-] _ Hin.
    destruct (check_timers_prefix now u s) as [k ->]. set_solver.
  - unfold fire. destruct (timers s !! i) as [[due' u']|] eqn:Hi; [|done].
    case_bool_decide; [|done]. intros [= <-] Hlt Hin. simpl.
    eapply delete_keeps; [done..|]. intros [= -> ->]. lia.
Qed.

Lemma timer_survives_run evs : ∀ s s' due userId,
  wf s → run s evs = Some s' → Forall (λ e, at_time e < due) evs →
  (due, userId) ∈ timers s → wf s' ∧ (due, userId) ∈ timers s'.
Proof.
  induction evs as [|e evs IH]; simpl; intros s s' due u Hwf Hrun Hall Hin.
  - by injection Hrun as <-.
  - destruct (step s e) as [s1|] eqn:He; [|done].
    apply Forall_cons in Hall as [Hlt Hall].
    apply (IH s1); [by eapply wf_step|done|done|].
    by eapply timer_survives_step.
Qed.

(** Firing a sender's timer at or after its deadline lifts the ban. *)
Lemma fire_due s i due userId now :
  timers s !! i = Some (due, userId) → due ≤ now →
  ∃ s', fire now i s = Some s' ∧ userId ∉ banned s'.
Proof.
  intros Hi Hle. unfold fire.
  destruct (timers s !! i) as [[d u]|]; [|done]. injection Hi as -> ->.
  case_bool_decide; [|lia].
  eexists; split; [done|]. simpl. set_solver.
Qed.

Lemma fire_early s i due userId now :
  timers s !! i = Some (due, userId) → now < due → fire now i s = None.
Proof.
  intros Hi Hlt. unfold fire. rewrite Hi. by rewrite bool_decide_eq_false_2 by lia.
Qed.

Lemma tally_spam_inv now userId s s1 bd :
  tally now userId s = (s1, SpamDetected bd) →
  bd = limit_blockDuration ∧ userId ∈ banned s1 ∧
  (now + limit_blockDuration, userId) ∈ timers s1.
Proof.
  unfold tally. case_bool_decide; [|done]. intros [= <- <-]. simpl.
  split; [done|]. split; set_solver.
Qed.

Lemma check_spam_inv now userId s s1 bd :
  check now userId s = (s1, SpamDetected bd) →
  bd = limit_blockDuration ∧ userId ∈ banned s1 ∧
  (now + limit_blockDuration, userId) ∈ timers s1.
Proof.
  destruct (decide (userId ∈ banned s)) as [Hb|Hb].
  - by rewrite check_banned.
  - rewrite check_not_banned by done. apply tally_spam_inv.
Qed.

Lemma checks_app userId ts1 : ∀ ts2 s,
  checks userId (ts1 ++ ts2) s =
    let '(s1, vs1) := checks userId ts1 s in
    let '(s2, vs2) := checks userId ts2 s1 in
    (s2, vs1 ++ vs2).
Proof.
  induction ts1 as [|now ts1 IH]; intros ts2 s; simpl.
  - by destruct (checks userId ts2 s).
  - destruct (check now userId s) as [s1 v]. rewrite IH.
    destruct (checks userId ts1 s1) as [s2 vs].
    by destruct (checks userId ts2 s2).
Qed.

Lemma filter_agree {A} (P Q : A → Prop)
    `{!∀ x, Decision (P x)} `{!∀ x, Decision (Q x)} (l : list A) :
  (∀ x, x ∈ l → P x ↔ Q x) → filter P l = filter Q l.
Proof.
  induction l as [|x l IH]; intros Hag; [done|].
  rewrite !filter_cons.
  rewrite IH by (intros; apply Hag; by right).
  assert (Hx : P x ↔ Q x) by (apply Hag; by left).
  destruct (decide (P x)) as [HP|HP], (decide (Q x)) as [HQ|HQ];
    try done; tauto.
Qed.

Lemma filter_none {A} (P : A → Prop) `{!∀ x, Decision (P x)} (l : list A) :
  (∀ x, x ∈ l → ¬ P x) → filter P l = [].
Proof.
  induction l as [|x l IH]; intros Hno; [done|].
  rewrite filter_cons_False by (apply Hno; by left).
  apply IH. intros y Hy. apply Hno. by right.
Qed.

Lemma tally_in_burst T now userId s :
  history_ok T userId s → in_burst T now →
  tally now userId s =
    let recent := filter (λ h, T ≤ h) (default [] (messages s !! userId)) ++ [now] in
    let s1 := mk (<[userId := recent]> (messages s)) (banned s) (timers s) in
    if bool_decide (Z.of_nat (length recent) > limit_messages)
    then (ban now userId s1, SpamDetected limit_blockDuration)
    else (s1, Allowed).
Proof.
  intros Hh [Hlo Hhi]. unfold tally.
  rewrite (filter_agree (λ time, now - time < limit_window) (λ h, T ≤ h)); [done|].
  intros h Hin.
  destruct (Hh h Hin) as [?|[? ?]]; unfold limit_window in *; lia.
Qed.

Lemma tally_in_burst_allowed T now userId s :
  history_ok T userId s → in_burst T now → (burst_len T userId s < 10)%nat →
  ∃ s1, tally now userId s = (s1, Allowed) ∧
    banned s1 = banned s ∧ timers s1 = timers s ∧
    history_ok T userId s1 ∧ burst_len T userId s1 = S (burst_len T userId s).
Proof.
  intros Hh Hnow Hlen. rewrite (tally_in_burst T) by done. simpl.
  unfold burst_len in *. unfold limit_messages.
  rewrite length_app. simpl. case_bool_decide; [lia|].
  eexists; split; [done|]. simpl. split; [done|]. split; [done|].
  unfold history_ok. simpl. rewrite lookup_insert_eq. simpl. split.
  - intros h [[_ Hin]%list_elem_of_filter| ->%list_elem_of_singleton]%elem_of_app;
      [by apply Hh|by right].
  - rewrite filter_app, length_app, list_filter_filter.
    rewrite (filter_agree (λ x, T ≤ x ∧ T ≤ x) (λ h, T ≤ h)) by naive_solver.
    rewrite filter_cons_True by apply Hnow. simpl. lia.
Qed.

Lemma checks_in_burst_allowed T userId ts : ∀ s,
  userId ∉ banned s → history_ok T userId s → Forall (in_burst T) ts →
  (burst_len T userId s + length ts ≤ 10)%nat →
  ∃ s', checks userId ts s = (s', replicate (length ts) Allowed) ∧
    banned s' = banned s ∧ timers s' = timers s ∧
    history_ok T userId s' ∧
    burst_len T userId s' = (burst_len T userId s + length ts)%nat.
Proof.
  induction ts as [|now ts IH]; intros s Hnb Hh Hall Hlen; simpl in *.
  - exists s. by rewrite Nat.add_0_r.
  - apply Forall_cons in Hall as [Hnow Hall].
    rewrite check_not_banned by done.
    destruct (tally_in_burst_allowed T now userId s) as (s1 & -> & Hb1 & Ht1 & Hh1 & Hl1);
      [done|done|lia|].
    destruct (IH s1) as (s2 & -> & Hb2 & Ht2 & Hh2 & Hl2);
      [by rewrite Hb1|done|done|lia|].
    exists s2. split; [done|].
    rewrite Hb2, Ht2, Hl2, Hl1. repeat split; try done. lia.
Qed.

(** C9. A ban that [check] creates at time [T] arms a timer due at
    [T + 300000].  Whatever happens before that instant (checks of any
    sender, other senders' timers), the sender stays banned and each of its
    checks is rejected; the sender's own timer cannot run before
    [T + 300000], and when it runs, at or after that instant, the ban is
    lifted. *)
Theorem ban_lasts_block_duration s T userId s1 bd :
  wf s → check T userId s = (s1, SpamDetected bd) →
  bd = 300000 ∧ userId ∈ banned s1 ∧
  ∀ evs s2, run s1 evs = Some s2 →
    Forall (λ e, at_time e < T + 300000) evs →
    userId ∈ banned s2 ∧
    (∀ now, check now userId s2 = (s2, Banned 300000)) ∧
    ∃ i, timers s2 !! i = Some (T + 300000, userId) ∧
      (∀ now, now < T + 300000 → fire now i s2 = None) ∧
      (∀ now, T + 300000 ≤ now →
         ∃ s3, fire now i s2 = Some s3 ∧ userId ∉ banned s3).
Proof.
  intros Hwf Hchk.
  assert (Hwf1 : wf s1) by (apply (wf_check T userId) in Hwf; by rewrite Hchk in Hwf).
  apply check_spam_inv in Hchk as (-> & Hb & Hin).
  split; [done|]. split; [done|]. intros evs s2 Hrun Hall.
  destruct (timer_survives_run evs s1 s2 _ _ Hwf1 Hrun Hall Hin) as [[Hsub _] Hin2].
  assert (Hb2 : userId ∈ banned s2) by by eapply Hsub.
  split; [done|]. split; [intros now; by apply check_banned|].
  apply list_elem_of_lookup in Hin2 as [i Hi]. exists i.
  split; [done|]. split; intros now Hnow.
  - by eapply fire_early.
  - by eapply fire_due.
Qed.

(** C8. With the limits of the constructor (more than 10 messages in a
    10 s window), take a sender that is not banned and whose recorded
    timestamps, if any, have left the window.  Eleven checks of that sender
    within one second: the first ten are allowed, the eleventh answers
    [spam_detected] with [blockDuration = 300000] and bans the sender.
    From then on, whatever happens before the unban timer is due, a twelfth
    check is rejected with reason [banned]. *)
Theorem eleven_in_a_second_bans s T userId ts t11 :
  wf s → userId ∉ banned s →
  (∀ h, h ∈ default [] (messages s !! userId) → h + 10000 ≤ T) →
  length ts = 10%nat → Forall (λ t, T ≤ t < T + 1000) (ts ++ [t11]) →
  ∃ s', checks userId (ts ++ [t11]) s =
          (s', replicate 10 Allowed ++ [SpamDetected 300000]) ∧
    userId ∈ banned s' ∧
    ∀ evs s'' t12, run s' evs = Some s'' →
      Forall (λ e, at_time e < t11 + 300000) evs →
      (check t12 userId s'').2 = Banned 300000.
Proof.
  intros Hwf Hnb Hold Hlen [Hts H11]%Forall_app.
  apply (proj1 (Forall_singleton _ _)) in H11. change (in_burst T t11) in H11.
  assert (Hh : history_ok T userId s) by (intros h Hin; left; by apply Hold).
  assert (Hl0 : burst_len T userId s = 0%nat).
  { unfold burst_len. rewrite filter_none; [done|].
    intros h Hin%Hold. lia. }
  destruct (checks_in_burst_allowed T userId ts s) as (s1 & Hc1 & Hb1 & Ht1 & Hh1 & Hl1);
    [done|done|done|lia|].
  rewrite checks_app, Hc1. simpl. rewrite Hlen.
  assert (Hnb1 : userId ∉ banned s1) by by rewrite Hb1.
  rewrite check_not_banned by done.
  rewrite (tally_in_burst T) by done. simpl.
  rewrite length_app. fold (burst_len T userId s1). rewrite Hl1, Hl0, Hlen.
  simpl.
  eexists. split; [done|].
  match goal with |- _ ∈ banned ?st ∧ _ => set (s' := st) end.
  assert (Hb' : userId ∈ banned s') by (unfold s', ban; simpl; set_solver).
  assert (Hin : (t11 + 300000, userId) ∈ timers s')
    by (unfold s', ban; simpl; set_solver).
  assert (Hwf' : wf s').
  { assert (Hc : (check t11 userId s1).1 = s').
    { rewrite check_not_banned by done. rewrite (tally_in_burst T) by done.
      simpl. rewrite length_app. fold (burst_len T userId s1).
      by rewrite Hl1, Hl0, Hlen. }
    rewrite <- Hc. apply wf_check. split.
    - rewrite Ht1, Hb1. apply Hwf.
    - rewrite Ht1. apply Hwf. }
  split; [done|]. intros evs s'' t12 Hrun Hall.
  destruct (timer_survives_run evs s' s'' _ _ Hwf' Hrun Hall Hin) as [[Hsub _] Hin2].
  rewrite check_banned; [done|]. by eapply Hsub.
Qed.

(** C10. [getRemainingBlock] is the constant [blockDuration]; so a check of
    a banned sender always answers [Banned 300000] and leaves the state as
    it is: the branch of [check] that lifts an expired ban is never taken,
    and the only event that removes a sender from the banned set is the
    run of that sender's timer. *)
Theorem banned_remaining_is_constant s e s' userId :
  userId ∈ banned s →
  getRemainingBlock s userId = 300000 ∧
  (∀ now, check now userId s = (s, Banned 300000)) ∧
  (∀ now other, userId ∈ banned (check now other s).1) ∧
  (step s e = Some s' → userId ∉ banned s' →
     ∃ now i due, e = EFire now i ∧
       timers s !! i = Some (due, userId) ∧ due ≤ now).
Proof.
  intros Hb. split; [done|]. split; [intros; by apply check_banned|].
  split; [intros; by apply check_banned_mono|].
  destruct e as [now u|now i]; simpl.
  - intros [= <-] Hnb. destruct Hnb. by apply check_banned_mono.
  - unfold fire. destruct (timers s !! i) as [[due u]|] eqn:Hi; [|done].
    case_bool_decide; [|done]. intros [= <-]. simpl. intros Hnb.
    exists now, i, due. split; [done|]. split; [|done].
    destruct (decide (u = userId)) as [->|Hne]; [done|]. set_solver.
Qed.

Lemma wf_no_timers m b : wf (mk m b []).
Proof. split; [intros ?? H; by apply elem_of_nil in H | constructor]. Qed.

Lemma ban_lasts_block_duration_witness :
  spammer ∈ banned just_banned ∧
  check 307499 spammer just_banned = (just_banned, Banned 300000) ∧
  ∃ i, fire 307499 i just_banned = None ∧
    ∃ s3, fire 307500 i just_banned = Some s3 ∧ spammer ∉ banned s3.
Proof.
  destruct (ban_lasts_block_duration ten_recent 7500 spammer just_banned 300000)
    as (_ & Hb & Hrun); [apply wf_no_timers|reflexivity|].
  split; [exact Hb|].
  destruct (Hrun [] just_banned) as (_ & Hchk & i & _ & Hearly & Hdue);
    [reflexivity|constructor|].
  split; [apply Hchk|]. exists i. split; [apply Hearly; lia|apply Hdue; lia].
Defined.

Lemma eleven_in_a_second_bans_witness :
  ∃ s', checks spammer (seq_times 10 ++ [5010]) init =
          (s', replicate 10 Allowed ++ [SpamDetected 300000]) ∧
        (check 200000 spammer s').2 = Banned 300000.
Proof.
  destruct (eleven_in_a_second_bans init 5000 spammer
              (seq_times 10) 5010)
    as (s' & Hc & _ & H12).
  - apply wf_no_timers.
  - vm_compute. set_solver.
  - intros h Hin. vm_compute in Hin. by apply elem_of_nil in Hin.
  - reflexivity.
  - unfold seq_times. simpl. repeat constructor; lia.
  - exists s'. split; [exact Hc|]. by apply (H12 [] s' 200000).
Defined.

Lemma banned_remaining_is_constant_witness :
  getRemainingBlock just_banned spammer = 300000 ∧
  check 999999999 spammer just_banned = (just_banned, Banned 300000).
Proof.
  destruct (banned_remaining_is_constant just_banned (ECheck 0 spammer) just_banned spammer)
    as (Hrem & Hchk & _).
  - vm_compute. set_solver.
  - split; [exact Hrem|apply Hchk].
Defined.

End AntiSpamFacts.

(** ** Connection supervisor: reconnection back-off *)

Section ReconnectFacts.
Import Bot.

Lemma handleReconnect_below s :
  reconnectAttempts s + 1 ≤ MAX_RECONNECT_ATTEMPTS →
  handleReconnect s =
    mk (isBotReady s) (reconnectAttempts s + 1) (messageQueue s) (opening s)
       (start_timers s ++
          [Z.min (RECONNECT_INTERVAL * 2 ^ (reconnectAttempts s + 1 - 1)) 60000]).
Proof. intros Hle. unfold handleReconnect. by rewrite bool_decide_eq_false_2 by lia. Qed.

Lemma handleReconnect_above s :
  MAX_RECONNECT_ATTEMPTS < reconnectAttempts s + 1 →
  handleReconnect s =
    mk (isBotReady s) (reconnectAttempts s + 1) (messageQueue s) (opening s)
       (start_timers s ++ [30000]).
Proof. intros Hlt. unfold handleReconnect. by rewrite bool_decide_eq_true_2 by lia. Qed.

(** The claim of C4 read for every counter: at the eleventh failure in a row
    the timer is armed with 30000 ms, not with [min (5000 * 2^10) 60000]. *)
Lemma backoff_formula_fails_past_ceiling :
  ¬ ∀ s, 1 ≤ reconnectAttempts s + 1 →
      armed_delay s =
        Some (Z.min (RECONNECT_INTERVAL * 2 ^ (reconnectAttempts s + 1 - 1)) 60000).
Proof.
  intros H. assert (Hc := H (failed 10) ltac:(simpl; lia)).
  vm_compute in Hc. discriminate.
Qed.

(** C4, amended.  For every counter [n] from 1 to 10 (the counter after the
    increment), [handleReconnect] arms [startBot] after
    [min (5000 * 2^(n-1)) 60000] ms; over that range the delay never
    decreases and never exceeds 60000 ms, and five failures in a row arm
    5000, 10000, 20000, 40000 and 60000 ms. *)
Theorem backoff_delay s n :
  n = reconnectAttempts s + 1 → 1 ≤ n ≤ 10 →
  reconnectAttempts (handleReconnect s) = n ∧
  armed_delay s = Some (Z.min (5000 * 2 ^ (n - 1)) 60000) ∧
  (∀ d, armed_delay s = Some d →
     d ≤ 60000 ∧
     ∀ d', n < 10 → armed_delay (handleReconnect s) = Some d' → d ≤ d') ∧
  start_timers (Nat.iter 5 handleReconnect (failed 0)) =
    [5000; 10000; 20000; 40000; 60000].
Proof.
  intros -> Hn.
  assert (Harm : ∀ s', reconnectAttempts s' + 1 ≤ 10 →
    armed_delay s' = Some (Z.min (5000 * 2 ^ (reconnectAttempts s' + 1 - 1)) 60000)).
  { intros s' Hs'. unfold armed_delay. rewrite handleReconnect_below by done.
    simpl. by rewrite last_snoc. }
  split; [by rewrite handleReconnect_below by (unfold MAX_RECONNECT_ATTEMPTS; lia)|].
  split; [apply Harm; lia|]. split; [|reflexivity].
  intros d. rewrite Harm by lia. intros [= <-]. split; [lia|].
  intros d' Hlt. rewrite Harm.
  - rewrite handleReconnect_below by (unfold MAX_RECONNECT_ATTEMPTS; lia). simpl.
    intros [= <-].
    replace (reconnectAttempts s + 1 + 1 - 1) with (Z.succ (reconnectAttempts s + 1 - 1)) by lia.
    rewrite Z.pow_succ_r by lia.
    assert (0 < 2 ^ (reconnectAttempts s + 1 - 1)) by (apply Z.pow_pos_nonneg; lia).
    lia.
  - rewrite handleReconnect_below by (unfold MAX_RECONNECT_ATTEMPTS; lia). simpl. lia.
Qed.

Lemma backoff_delay_witness :
  armed_delay (failed 4) = Some 60000 ∧
  start_timers (Nat.iter 5 handleReconnect (failed 0)) =
    [5000; 10000; 20000; 40000; 60000].
Proof.
  destruct (backoff_delay (failed 4) 5) as (_ & H & _ & H5);
    [reflexivity|lia|].
  split; [exact H|exact H5].
Defined.

(** The claim of C5: past the ceiling the counter is not reset. *)
Lemma ceiling_does_not_reset :
  reconnectAttempts (handleReconnect (failed 10)) = 11 ∧
  reconnectAttempts (handleReconnect (failed 10)) ≠ 0 ∧
  armed_delay (failed 10) = Some 30000 ∧
  armed_delay (failed 9) = Some 60000.
Proof. by vm_compute. Qed.

(** The counter of any state after any step: it stays, goes up by one, or
    the step is a connection update that opens the connection or brings a
    QR code. *)
Lemma counter_step s e s' :
  step s e = Some s' →
  reconnectAttempts s' = reconnectAttempts s ∨
  reconnectAttempts s' = reconnectAttempts s + 1 ∨
  ∃ update adminNumber statsWritten,
    e = ConnectionUpdate update adminNumber statsWritten ∧
    (connection update = Some open ∨ qr update = true).
Proof.
  destruct e as [uuid now m w|update adminNumber sw| |ok w rw| | |ok sw uuid now m w];
    simpl.
  - intros [= <-]. by left.
  - intros [= <-]. unfold handleConnectionUpdate.
    destruct (qr update) eqn:Hqr; [right; right; eauto 6|].
    destruct (connection update) as [[| |]|] eqn:Hc.
    + by left.
    + right; right; eauto 6.
    + case_bool_decide; [|by left]. unfold handleReconnect.
      case_bool_decide; simpl; by right; left.
    + by left.
  - intros [= <-]. unfold handleReconnect. case_bool_decide; simpl; by right; left.
  - unfold lift. destruct (MessageQueue.send_settled _ _ _ _); [|done].
    intros [= <-]. by left.
  - unfold lift. destruct (MessageQueue.delay_elapsed _); [|done].
    intros [= <-]. by left.
  - unfold lift. destruct (MessageQueue.timer_fired _ _); [|done].
    intros [= <-]. by left.
  - unfold notify_settled. destruct (opening s); [done|].
    destruct (ok && sw); [|destruct w]; intros [= <-]; by left.
Qed.

(** C5, amended.  Once the counter, after its increment, exceeds 10,
    [handleReconnect] arms [startBot] (the start routine of every
    reconnection) after a fixed 30000 ms and keeps the incremented counter:
    each further failure takes the same branch.  The counter goes back to 0
    only when the connection opens or a QR code is received: such an update
    (when it does not also close the connection) sets it to 0, and no other
    step of the bot, from any state, makes the counter smaller. *)
Theorem past_ceiling_restart s k :
  10 ≤ reconnectAttempts s →
  reconnectAttempts (Nat.iter k handleReconnect s) = reconnectAttempts s + Z.of_nat k ∧
  start_timers (Nat.iter k handleReconnect s) = start_timers s ++ replicate k 30000 ∧
  (∀ update adminNumber statsWritten,
    (connection update = Some open ∨ qr update = true) →
    connection update ≠ Some close →
    reconnectAttempts (handleConnectionUpdate update adminNumber statsWritten s) = 0) ∧
  (∀ t e t', step t e = Some t' → reconnectAttempts t' < reconnectAttempts t →
    ∃ update adminNumber statsWritten,
      e = ConnectionUpdate update adminNumber statsWritten ∧
      (connection update = Some open ∨ qr update = true)) ∧
  (∀ e s', step s e = Some s' → reconnectAttempts s' = 0 →
    ∃ update adminNumber statsWritten,
      e = ConnectionUpdate update adminNumber statsWritten ∧
      (connection update = Some open ∨ qr update = true)).
Proof.
  intros Hge.
  assert (Honly : ∀ t e t', step t e = Some t' →
    reconnectAttempts t' < reconnectAttempts t →
    ∃ update adminNumber statsWritten,
      e = ConnectionUpdate update adminNumber statsWritten ∧
      (connection update = Some open ∨ qr update = true)).
  { intros t e t' Hstep Hlt.
    destruct (counter_step t e t' Hstep) as [?|[?|?]]; [lia|lia|done]. }
  split; [|split; [|split; [|split]]].
  - induction k as [|k IH]; [simpl; lia|].
    rewrite Nat.iter_succ, handleReconnect_above
      by (unfold MAX_RECONNECT_ATTEMPTS; lia). simpl. lia.
  - assert (Hk : ∀ k, 10 ≤ reconnectAttempts (Nat.iter k handleReconnect s)).
    { intros j. induction j as [|j IH]; [done|].
      rewrite Nat.iter_succ, handleReconnect_above
        by (unfold MAX_RECONNECT_ATTEMPTS; lia). simpl. lia. }
    induction k as [|k IH]; [by rewrite app_nil_r|].
    rewrite Nat.iter_succ, handleReconnect_above
      by (specialize (Hk k); unfold MAX_RECONNECT_ATTEMPTS; lia). simpl.
    rewrite IH. rewrite <- app_assoc. f_equal.
    clear. induction k as [|k IH]; simpl; [done|]. by f_equal.
  - intros update adminNumber statsWritten Hor Hnc. unfold handleConnectionUpdate.
    destruct (connection update) as [[| |]|] eqn:Hc; try done.
    + destruct Hor as [?|Hqr]; [done|]. by rewrite Hqr.
    + by destruct statsWritten, adminNumber.
    + destruct Hor as [?|Hqr]; [done|]. by rewrite Hqr.
  - exact Honly.
  - intros e s' Hstep H0. apply (Honly s e s' Hstep). lia.
Qed.

Lemma past_ceiling_restart_witness :
  reconnectAttempts (Nat.iter 3 handleReconnect (failed 10)) = 13 ∧
  start_timers (Nat.iter 3 handleReconnect (failed 10)) = [30000; 30000; 30000] ∧
  reconnectAttempts (handleConnectionUpdate open_update false true (failed 10)) = 0.
Proof.
  destruct (past_ceiling_restart (failed 10) 3) as (H1 & H2 & H3 & _); [simpl; lia|].
  split; [exact H1|]. split; [exact H2|].
  apply H3; [by left|discriminate].
Defined.

End ReconnectFacts.

(** ** One-time codes *)

Section OtpFacts.
Import Otp.

(** *** The bot's [verifyOTP] *)

Lemma verifyOTP_not_found now phone code' (otps : gmap string OtpRecord) :
  otps !! digits phone = None →
  verifyOTP now phone code' otps = (otps, mkResult false (Some "OTP tidak ditemukan")).
Proof. intros H. unfold verifyOTP. by rewrite H. Qed.

(** An expired record is reported and left in the file. *)
Lemma verifyOTP_expired now phone code' (otps : gmap string OtpRecord) data :
  otps !! digits phone = Some data → expires data < now →
  verifyOTP now phone code' otps = (otps, mkResult false (Some "OTP expired")).
Proof. intros H Hlt. unfold verifyOTP. rewrite H. by rewrite bool_decide_eq_true_2. Qed.

Lemma verifyOTP_mismatch now phone code' (otps : gmap string OtpRecord) data :
  otps !! digits phone = Some data → now ≤ expires data → code data ≠ code' →
  verifyOTP now phone code' otps =
    (<[digits phone := bump data]> otps, mkResult false (Some "Kode salah")).
Proof.
  intros H Hle Hne. unfold verifyOTP. rewrite H.
  rewrite bool_decide_eq_false_2 by lia. by rewrite bool_decide_eq_true_2.
Qed.

(** On a match the key that is deleted is [phone] as received, not the
    normalised key under which the record was found. *)
Lemma verifyOTP_match now phone (otps : gmap string OtpRecord) data :
  otps !! digits phone = Some data → now ≤ expires data →
  verifyOTP now phone (code data) otps = (delete phone otps, mkResult true None).
Proof.
  intros H Hle. unfold verifyOTP. rewrite H.
  rewrite bool_decide_eq_false_2 by lia. by rewrite bool_decide_eq_false_2 by auto.
Qed.

Lemma digits_idempotent phone : digits (digits phone) = digits phone.
Proof.
  induction phone as [|c rest IH]; [done|]. simpl.
  destruct (is_digit c) eqn:Hc; [|done]. simpl. by rewrite Hc, IH.
Qed.

(** For a target made of digits only, the key deleted is the key found:
    verification is single-use. *)
Lemma verifyOTP_single_use_digits now now' phone code' code''
    (otps otps' : gmap string OtpRecord) :
  digits phone = phone →
  verifyOTP now phone code' otps = (otps', mkResult true None) →
  (verifyOTP now' phone code'' otps').2 = mkResult false (Some "OTP tidak ditemukan").
Proof.
  intros Hd. unfold verifyOTP at 1. rewrite Hd.
  destruct (otps !! phone) as [data|]; [|done].
  repeat case_bool_decide; try done. intros [= <-].
  rewrite verifyOTP_not_found; [done|]. rewrite Hd. apply lookup_delete_eq.
Qed.

(** *** The handler *)

Lemma handler_not_found asked now stored sid uid body (kv : gmap string Slot) :
  body_adminCode body ≠ Some ADMIN_SECRET →
  kv_get asked (key_of "otp:" (target_of body)) kv = None →
  handler asked now stored sid uid body kv = (kv, BadRequest "OTP not found or expired").
Proof.
  intros Ha H. unfold handler. rewrite bool_decide_eq_false_2 by done. by rewrite H.
Qed.

Lemma handler_expired asked now stored sid uid body (kv : gmap string Slot) otp :
  body_adminCode body ≠ Some ADMIN_SECRET →
  kv_get asked (key_of "otp:" (target_of body)) kv = Some (VOtp otp) →
  expires otp < now →
  handler asked now stored sid uid body kv =
    (kv_del (key_of "otp:" (target_of body)) kv, BadRequest "OTP expired").
Proof.
  intros Ha H Hlt. unfold handler. rewrite bool_decide_eq_false_2 by done.
  rewrite H. by rewrite bool_decide_eq_true_2.
Qed.

Lemma handler_mismatch asked now stored sid uid body (kv : gmap string Slot) otp :
  body_adminCode body ≠ Some ADMIN_SECRET →
  kv_get asked (key_of "otp:" (target_of body)) kv = Some (VOtp otp) →
  now ≤ expires otp → Some (code otp) ≠ body_code body →
  handler asked now stored sid uid body kv =
    (kv_set stored (key_of "otp:" (target_of body)) (VOtp (bump otp)) (Some 300) kv,
     BadRequest "Invalid code").
Proof.
  intros Ha H Hle Hne. unfold handler. rewrite bool_decide_eq_false_2 by done.
  rewrite H. rewrite bool_decide_eq_false_2 by lia. by rewrite bool_decide_eq_true_2.
Qed.

Lemma key_of_inj_prefix t t' :
  key_of "user:" t ≠ key_of "otp:" t' ∧ key_of "session:" t ≠ key_of "otp:" t'.
Proof. by split. Qed.

(** After a verification that succeeds, the handler finds no code for the
    target any more, whatever code is presented and whenever. *)
Lemma handler_single_use asked now stored asked' now' stored' sid uid sid' uid' body body'
    (kv kv' : gmap string Slot) user :
  handler asked now stored sid uid body kv = (kv', Session sid user) →
  body_adminCode body' ≠ Some ADMIN_SECRET →
  target_of body' = target_of body →
  (handler asked' now' stored' sid' uid' body' kv').2 =
    BadRequest "OTP not found or expired".
Proof.
  unfold handler at 1. case_bool_decide; [done|].
  destruct (kv_get asked _ kv) as [[otp|]|]; try done.
  repeat case_bool_decide; try done. intros [= <- _] Ha Ht.
  rewrite handler_not_found; [done..|]. rewrite Ht.
  unfold kv_get, kv_set, kv_del.
  rewrite !lookup_insert_ne by apply key_of_inj_prefix.
  by rewrite lookup_delete_eq.
Qed.

(** C6.  [botAPI.verifyOTP], given a record that has expired, answers
    ['OTP expired'] and returns the file as it was: the record is still
    there.  The handler of [api/auth/verify.js], on the same record, deletes
    the key. *)
Theorem verifyOTP_keeps_expired_record :
  verifyOTP 2000 "628123" "123456" stale_file =
    (stale_file, mkResult false (Some "OTP expired")) ∧
  stale_file !! "628123" = Some (mkOtp "123456" 1000 0) ∧
  handler 2000 2000 2000 "s1" "u1" (otp_request "628123" "123456") stale_kv =
    (∅, BadRequest "OTP expired").
Proof.
  split; [by apply (verifyOTP_expired _ _ _ _ (mkOtp "123456" 1000 0))|].
  split; [done|].
  rewrite (handler_expired _ _ _ _ _ _ _ (mkOtp "123456" 1000 1)); [|done..].
  by f_equal.
Qed.

(** C7.  [botAPI.verifyOTP], given the target as the user typed it
    (["+628123"]), finds the record under the normalised key ["628123"],
    answers [valid] and deletes the key ["+628123"], which the file does not
    hold: the file is unchanged, and a second verification with the same
    code is valid again. *)
Theorem verifyOTP_is_not_single_use :
  live_file !! "628123" = Some (mkOtp "123456" 300000 0) ∧
  verifyOTP 5000 "+628123" "123456" live_file = (live_file, mkResult true None) ∧
  verifyOTP 6000 "+628123" "123456" live_file = (live_file, mkResult true None) ∧
  outcome_of_result (verifyOTP 6000 "+628123" "123456" live_file).2 = Some Verified ∧
  outcome_of_response
    (handler 6000 6000 6000 "s2" "u2" (otp_request "+628123" "123456")
       (handler 5000 5000 5000 "s1" "u1" (otp_request "+628123" "123456") live_kv).1).2
    = Some NotFound.
Proof.
  assert (H : ∀ now, now ≤ 300000 →
    verifyOTP now "+628123" "123456" live_file = (live_file, mkResult true None)).
  { intros now Hnow.
    change "123456"%string with (code (mkOtp "123456" 300000 0)) at 1.
    by rewrite verifyOTP_match. }
  split; [done|]. split; [by apply H|]. split; [by apply H|].
  split; [by rewrite H|].
  destruct (handler 5000 5000 5000 "s1" "u1" (otp_request "+628123" "123456") live_kv)
    as [kv' r] eqn:H1.
  assert (Hr : r = Session "s1"
    (mkUser "u1" (Some "+628123") (Some "+628123") None "user" 5000))
    by (vm_compute in H1; congruence).
  subst r. simpl.
  by rewrite (handler_single_use _ _ _ _ _ _ _ _ _ _ _ _ _ _ _ H1).
Qed.

End OtpFacts.

(** ** Message queue *)

Section QueueFacts.
Import MessageQueue.

Lemma sorted_snoc_lt (l : list nat) (n : nat) :
  StronglySorted lt l → Forall (λ r, r < n)%nat l → StronglySorted lt (l ++ [n]).
Proof.
  induction 1 as [|a l Hs IH Ha]; intros Hn; simpl.
  - repeat constructor.
  - apply Forall_cons in Hn as [Han Hn]. constructor; [by apply IH|].
    apply Forall_app. split; [done|]. by constructor.
Qed.

Lemma sorted_snoc_le (l : list nat) (n : nat) :
  StronglySorted le l → Forall (λ r, r ≤ n)%nat l → StronglySorted le (l ++ [n]).
Proof.
  induction 1 as [|a l Hs IH Ha]; intros Hn; simpl.
  - repeat constructor.
  - apply Forall_cons in Hn as [Han Hn]. constructor; [by apply IH|].
    apply Forall_app. split; [done|]. by constructor.
Qed.

Lemma refs_set_attempts msg a l : refs (set_attempts msg a l) = refs l.
Proof.
  unfold refs, set_attempts. rewrite <- list_fmap_compose.
  apply list_fmap_ext. intros i e _. simpl. by case_bool_decide.
Qed.

Lemma set_attempts_others msg a l :
  Forall (λ r, ref msg < r)%nat (refs l) → set_attempts msg a l = l.
Proof.
  induction l as [|e l IH]; [done|]. intros [He Hl]%Forall_cons. simpl.
  rewrite (IH Hl). by rewrite bool_decide_eq_false_2 by lia.
Qed.

(** The entry held by a suspended run is the head, and only the head is
    that object: [msg.attempts++] changes the head in place. *)
Lemma set_attempts_head msg a rest :
  StronglySorted lt (refs (msg :: rest)) →
  set_attempts msg a (msg :: rest) = with_attempts a msg :: rest.
Proof.
  intros Hs. apply StronglySorted_inv in Hs as [_ Hlt]. simpl.
  rewrite bool_decide_eq_true_2 by done. f_equal.
  by apply set_attempts_others.
Qed.

Lemma refs_number loaded : ∀ k, refs (number k loaded) = seq k (length loaded).
Proof. induction loaded as [|e l IH]; intros k; simpl; [done|]. by rewrite IH. Qed.

Lemma sorted_seq n : ∀ k, StronglySorted lt (seq k n).
Proof.
  induction n as [|n IH]; intros k; simpl; constructor; [done|].
  apply Forall_forall. intros x Hx%elem_of_seq. lia.
Qed.

Lemma attempts_number loaded : ∀ k,
  Forall (λ e, 0 ≤ attempts e ≤ 2) loaded →
  Forall (λ e, 0 ≤ attempts e ≤ 2) (number k loaded).
Proof.
  induction loaded as [|e l IH]; intros k; simpl; [done|].
  intros [He Hl]%Forall_cons. constructor; [done|by apply IH].
Qed.

(** A fresh process whose persisted queue was written by [save]. *)
Lemma wf_new loaded :
  Forall (λ e, 0 ≤ attempts e ≤ 2) loaded → wf (new loaded).
Proof.
  intros Ha. split; simpl; try done. split; simpl; try done.
  - rewrite refs_number. apply sorted_seq.
  - rewrite refs_number. apply Forall_forall. intros x Hx%elem_of_seq. lia.
  - by apply attempts_number.
  - constructor.
Qed.

Lemma sorted_head_least (r : nat) (l : list nat) :
  StronglySorted lt (r :: l) → Forall (λ r', r ≤ r')%nat (r :: l).
Proof.
  intros [_ Hl]%StronglySorted_inv. constructor; [done|].
  eapply Forall_impl; [done|]. simpl. lia.
Qed.

Lemma data_ok_attempt msg rest n att :
  data_ok (msg :: rest) n att → data_ok (msg :: rest) n (att ++ [ref msg]).
Proof.
  intros [H3 H4 H5 H6 H7 H8]. split; try done.
  - apply sorted_snoc_le; [done|].
    eapply Forall_impl; [exact H8|]. simpl. by intros r [Hr _]%Forall_cons.
  - apply Forall_app. split; [done|]. constructor; [|done].
    by apply Forall_cons in H4 as [? _].
  - apply Forall_app. split; [done|]. constructor; [|done].
    by apply sorted_head_least.
Qed.

Lemma data_ok_push l n att e :
  ref e = n → attempts e = 0 → data_ok l n att → data_ok (l ++ [e]) (S n) att.
Proof.
  intros Hr Ha [H3 H4 H5 H6 H7 H8]. split; try done.
  - unfold refs. rewrite fmap_app. simpl. rewrite Hr. by apply sorted_snoc_lt.
  - unfold refs. rewrite fmap_app. apply Forall_app. split.
    + eapply Forall_impl; [exact H4|]. simpl. lia.
    + simpl. rewrite Hr. repeat constructor.
  - apply Forall_app. split; [done|]. constructor; [|done]. rewrite Ha. lia.
  - eapply Forall_impl; [exact H7|]. simpl. lia.
  - apply Forall_forall. intros r Hr'. unfold refs. rewrite fmap_app.
    apply Forall_app. split.
    + by eapply Forall_forall in H8.
    + constructor; [|done]. simpl. eapply Forall_forall in H7; [|done].
      simpl in H7. lia.
Qed.

Lemma data_ok_shift msg rest n att :
  data_ok (msg :: rest) n att → data_ok rest n att.
Proof.
  intros [H3 H4 H5 H6 H7 H8]. split; try done.
  - by apply StronglySorted_inv in H3 as [? _].
  - by apply Forall_cons in H4 as [_ ?].
  - by apply Forall_cons in H5 as [_ ?].
  - eapply Forall_impl; [exact H8|]. simpl. by intros r [_ ?]%Forall_cons.
Qed.

Lemma data_ok_tail l n att : data_ok l n att → data_ok (tail l) n att.
Proof. destruct l as [|e l]; [done|]. apply data_ok_shift. Qed.

Lemma data_ok_retry msg rest n att a :
  0 ≤ a ≤ 2 → data_ok (msg :: rest) n att →
  data_ok (with_attempts a msg :: rest) n att.
Proof.
  intros Ha [H3 H4 H5 H6 H7 H8]. split; try done.
  apply Forall_cons in H5 as [_ ?]. by constructor.
Qed.

Lemma wf_process ready q : wf q → wf (process ready q).
Proof.
  intros Hq. unfold process.
  destruct (processing q || _ || _) eqn:Hg; [done|].
  destruct (queue q) as [|msg rest] eqn:Hqu; [done|].
  destruct Hq as [H1 H2 H3 H4]. rewrite Hqu in *.
  split; simpl; try rewrite Hqu; try done.
  - intros ? [= <-]. by exists rest.
  - by apply data_ok_attempt.
  - intros ? [= <-]. set_solver.
Qed.

Lemma process_queue ready q : queue (process ready q) = queue q.
Proof.
  unfold process. destruct (processing q || _ || _); [done|].
  by destruct (queue q) eqn:E.
Qed.

(** The array with the new entry at its tail, before [save()]. *)
Lemma wf_pushed uuid now m q :
  wf q →
  wf (mk (queue q ++ [mkEntry (next_ref q) uuid m now 0]) (processing q) (awaiting q)
         (timers q) (S (next_ref q)) (attempted q) (delivered q) (dropped q) (lost q)).
Proof.
  intros [H1 H2 H3 H4]. split; simpl; try done.
  - intros msg Hm. destruct (H2 msg Hm) as [rest ->]. by eexists.
  - by apply data_ok_push.
Qed.

Lemma wf_add uuid now m written ready q : wf q → wf (add uuid now m written ready q).
Proof.
  intros Hq. unfold add. destruct written; [apply wf_process|]; by apply wf_pushed.
Qed.

Lemma add_queue uuid now m written ready q :
  queue (add uuid now m written ready q) = queue q ++ [mkEntry (next_ref q) uuid m now 0].
Proof. unfold add. destruct written; [by rewrite process_queue|done]. Qed.

Lemma wf_finish l p a k n att d x lo :
  data_ok l n att → wf (finish (mk l p a k n att d x lo)).
Proof. intros Hd. by split. Qed.

Lemma head_attempts q msg rest :
  wf q → queue q = msg :: rest → 0 ≤ attempts msg ≤ 2.
Proof.
  intros [_ _ [_ _ H5 _ _ _] _] Hqu. rewrite Hqu in H5.
  by apply Forall_cons in H5 as [? _].
Qed.

(** What [send_settled] does to a well-formed queue whose run is suspended
    in the send of the head [msg], case by case: the transport takes [msg]
    and the file is written; the transport takes [msg] and the write fails,
    so that the [catch] block counts a failure for [msg] and, at 3, shifts
    the entry behind it; the transport refuses [msg]. *)
Lemma send_settled_eq ok w rw q msg rest :
  wf q → awaiting q = Some (AwaitSend msg) → queue q = msg :: rest →
  send_settled ok w rw q = Some (
    if ok then
      if w then
        finish (mk rest (processing q) (awaiting q) (timers q) (next_ref q)
                   (attempted q) (delivered q ++ [ref msg]) (dropped q) (lost q))
      else
        mk (if bool_decide (attempts msg + 1 >= 3) then tail rest else rest)
           (processing q) (if rw then Some AwaitDelay else None) (timers q)
           (next_ref q) (attempted q) (delivered q ++ [ref msg]) (dropped q)
           (if bool_decide (attempts msg + 1 >= 3)
            then lost q ++ refs (take 1 rest) else lost q)
    else
      mk (if bool_decide (attempts msg + 1 >= 3) then rest
          else with_attempts (attempts msg + 1) msg :: rest)
         (processing q) (if w then Some AwaitDelay else None) (timers q)
         (next_ref q) (attempted q) (delivered q)
         (if bool_decide (attempts msg + 1 >= 3)
          then dropped q ++ [ref msg] else dropped q)
         (lost q)).
Proof.
  intros Hq Ha Hqu. unfold send_settled. rewrite Ha, Hqu. f_equal.
  assert (Hs : StronglySorted lt (refs (msg :: rest))).
  { rewrite <- Hqu. apply Hq. }
  destruct ok; [destruct w; [done|]|].
  - unfold caught. simpl. rewrite set_attempts_others
      by by apply StronglySorted_inv in Hs as [_ ?].
    by case_bool_decide.
  - unfold caught. rewrite Hqu, set_attempts_head by done.
    by case_bool_decide.
Qed.


Lemma wf_send_settled ok w rw q q' : wf q → send_settled ok w rw q = Some q' → wf q'.
Proof.
  intros Hq. destruct (awaiting q) as [[msg|]|] eqn:Ha;
    try (unfold send_settled; rewrite Ha; done).
  destruct (wf_head q Hq msg Ha) as [rest Hqu].
  assert (Hd := wf_data q Hq). rewrite Hqu in Hd.
  assert (Hp : processing q = true) by (apply (wf_processing q Hq); by rewrite Ha).
  assert (Hatt := head_attempts q msg rest Hq Hqu).
  rewrite (send_settled_eq ok w rw q msg rest) by done. intros [= <-].
  destruct ok; [destruct w|].
  - apply wf_finish. by eapply data_ok_shift.
  - split; simpl; [done|by destruct rw| |by destruct rw].
    case_bool_decide; [apply data_ok_tail|]; by eapply data_ok_shift.
  - split; simpl; [done|by destruct w| |by destruct w].
    case_bool_decide; [by eapply data_ok_shift|apply data_ok_retry; [lia|done]].
Qed.

Lemma wf_delay_elapsed q q' : wf q → delay_elapsed q = Some q' → wf q'.
Proof.
  intros Hq. unfold delay_elapsed.
  destruct (awaiting q) as [[msg|]|]; try done. intros [= <-].
  destruct q. apply wf_finish. apply Hq.
Qed.

Lemma wf_timer_fired ready q q' : wf q → timer_fired ready q = Some q' → wf q'.
Proof.
  intros [H1 H2 H3 H4]. unfold timer_fired.
  destruct (timers q) as [|n]; [done|]. intros [= <-].
  apply wf_process. by split.
Qed.

(** Unless a run has ended in a write error, [processing] is set exactly
    while a run is suspended. *)
Lemma processing_busy q : wf q → ¬ jammed q → processing q = busy (awaiting q).
Proof.
  intros Hq Hj. destruct (awaiting q) as [a|] eqn:Ha; simpl.
  - apply (wf_processing q Hq). by rewrite Ha.
  - destruct (processing q) eqn:Hp; [|done]. by destruct Hj.
Qed.

(** A call of [process] on a ready bot leaves a queue that is not empty
    with a run in flight. *)
Lemma process_live q :
  wf q → ¬ jammed q → queue q ≠ [] → awaiting (process true q) ≠ None.
Proof.
  intros Hq Hj Hne. unfold process.
  destruct (processing q) eqn:Hp; simpl.
  - rewrite (processing_busy q Hq Hj) in Hp. by destruct (awaiting q).
  - destruct (queue q) as [|msg rest] eqn:Hqu; [done|].
    rewrite orb_false_r, bool_decide_eq_false_2 by done. by simpl.
Qed.

Lemma process_not_jammed ready q : ¬ jammed q → ¬ jammed (process ready q).
Proof.
  intros Hj. unfold process. destruct (processing q || _ || _); [done|].
  destruct (queue q); [done|]. by intros [_ ?].
Qed.

(** A second call in a row returns at the guard: [processing] is set. *)
Lemma process_idem ready q : process ready (process ready q) = process ready q.
Proof.
  destruct (processing q || bool_decide (length (queue q) = 0%nat) || negb ready) eqn:Hg.
  - assert (process ready q = q) as -> by (unfold process; by rewrite Hg).
    unfold process. by rewrite Hg.
  - destruct (queue q) as [|msg rest] eqn:Hqu.
    + rewrite bool_decide_eq_true_2 in Hg by done. by destruct (processing q).
    + assert (process ready q =
              mk (queue q) true (Some (AwaitSend msg)) (timers q) (next_ref q)
                 (attempted q ++ [ref msg]) (delivered q) (dropped q) (lost q)) as ->.
      { unfold process. rewrite Hqu. by rewrite Hg. }
      reflexivity.
Qed.



Lemma finish_live q : queue (finish q) ≠ [] → (0 < timers (finish q))%nat.
Proof.
  unfold finish. simpl. intros Hne.
  rewrite bool_decide_eq_true_2; [lia|]. destruct (queue q); [done|simpl; lia].
Qed.

End QueueFacts.

(** ** The bot: invariant of the event loop *)

Section BotFacts.
Import Bot.

Local Abbreviation queue_of s := (MessageQueue.queue (messageQueue s)).
Local Abbreviation awaiting_of s := (MessageQueue.awaiting (messageQueue s)).
Local Abbreviation attempted_of s := (MessageQueue.attempted (messageQueue s)).

(** *** Every step keeps the queue well formed *)

Lemma wf_handleReconnect s :
  MessageQueue.wf (messageQueue s) → MessageQueue.wf (messageQueue (handleReconnect s)).
Proof. unfold handleReconnect. by case_bool_decide. Qed.

Lemma queue_wf_step s e s' :
  MessageQueue.wf (messageQueue s) → step s e = Some s' →
  MessageQueue.wf (messageQueue s').
Proof.
  intros Hq.
  destruct e as [uuid now m w|update adminNumber sw| |ok w rw| | |ok sw uuid now m w];
    simpl.
  - intros [= <-]. simpl. by apply wf_add.
  - intros [= <-]. unfold handleConnectionUpdate.
    destruct (qr update), (connection update) as [[| |]|], sw, adminNumber; simpl;
      try done; try (by apply wf_process);
      case_bool_decide; try done; by apply wf_handleReconnect.
  - intros [= <-]. by apply wf_handleReconnect.
  - unfold lift. destruct (MessageQueue.send_settled _ _ _ _) as [q'|] eqn:Hs; [|done].
    intros [= <-]. by eapply wf_send_settled.
  - unfold lift. destruct (MessageQueue.delay_elapsed _) as [q'|] eqn:Hs; [|done].
    intros [= <-]. by eapply wf_delay_elapsed.
  - unfold lift. destruct (MessageQueue.timer_fired _ _) as [q'|] eqn:Hs; [|done].
    intros [= <-]. by eapply wf_timer_fired.
  - unfold notify_settled. destruct (opening s) as [|k]; [done|].
    destruct (ok && sw); [|destruct w]; intros [= <-]; unfold with_queue;
      cbn [messageQueue isBotReady].
    + by apply wf_process.
    + by apply wf_process, wf_add.
    + by apply wf_add.
Qed.

Lemma queue_wf_run evs : ∀ s s',
  MessageQueue.wf (messageQueue s) → run s evs = Some s' →
  MessageQueue.wf (messageQueue s').
Proof.
  induction evs as [|e evs IH]; simpl; intros s s' Hs.
  - by intros [= <-].
  - destruct (step s e) as [s1|] eqn:He; [|done].
    apply IH. by eapply queue_wf_step.
Qed.

Lemma queue_wf_init loaded' :
  Forall (λ e, 0 ≤ MessageQueue.attempts e ≤ 2) loaded' →
  MessageQueue.wf (messageQueue (init loaded')).
Proof. apply wf_new. Qed.

(** *** While the writes succeed the queue is being worked on *)


Lemma Inv_process b n o st q :
  MessageQueue.wf q → ¬ MessageQueue.jammed q →
  Inv (mk b n (MessageQueue.process b q) o st).
Proof.
  intros Hq Hj. split; [by apply wf_process|]. split; [|by apply process_not_jammed].
  intros Hr Hne Ha. simpl in *. subst b.
  rewrite process_queue in Hne. by apply process_live in Ha.
Qed.

Lemma Inv_handleReconnect s : Inv s → Inv (handleReconnect s).
Proof. intros (Hq & Hl & Hj). unfold handleReconnect. by case_bool_decide. Qed.

Lemma not_jammed_pushed uuid now m q :
  ¬ MessageQueue.jammed q →
  ¬ MessageQueue.jammed
      (MessageQueue.mk (MessageQueue.queue q ++ [MessageQueue.mkEntry (MessageQueue.next_ref q) uuid m now 0])
         (MessageQueue.processing q) (MessageQueue.awaiting q) (MessageQueue.timers q)
         (S (MessageQueue.next_ref q)) (MessageQueue.attempted q) (MessageQueue.delivered q)
         (MessageQueue.dropped q) (MessageQueue.lost q)).
Proof. done. Qed.

Lemma Inv_step s e s' : Inv s → written_ok e = true → step s e = Some s' → Inv s'.
Proof.
  intros (Hq & Hl & Hj).
  destruct e as [uuid now m w|update adminNumber sw| |ok w rw| | |ok sw uuid now m w];
    simpl; intros Hw.
  - subst w. intros [= <-]. unfold with_queue, MessageQueue.add.
    apply Inv_process; [by apply wf_pushed|done].
  - subst sw. intros [= <-]. unfold handleConnectionUpdate.
    set (s1 := if qr update then _ else s).
    assert (H1 : Inv s1) by (unfold s1; by destruct (qr update)).
    destruct H1 as (Hq1 & Hl1 & Hj1).
    destruct (connection update) as [[| |]|]; try done; simpl.
    + destruct adminNumber.
      * split; [done|]. split; [|done]. intros _ _ _. simpl. lia.
      * unfold with_queue. simpl. by apply Inv_process.
    + case_bool_decide.
      * apply Inv_handleReconnect. split; [done|]. split; [by intros ?|done].
      * split; [done|]. split; [by intros ?|done].
  - intros [= <-]. by apply Inv_handleReconnect.
  - subst w. unfold lift.
    destruct (MessageQueue.send_settled ok true rw _) as [q'|] eqn:Hs; [|done].
    intros [= <-]. split; [by eapply wf_send_settled|]. simpl.
    destruct (awaiting_of s) as [[msg|]|] eqn:Ha;
      try (unfold MessageQueue.send_settled in Hs; rewrite Ha in Hs; done).
    destruct (MessageQueue.wf_head _ Hq msg Ha) as [rest Hqu].
    rewrite (send_settled_eq ok true rw _ msg rest) in Hs by done.
    injection Hs as <-. destruct ok.
    + split; [|by intros [? _]]. intros Hr Hne Hnone. left. by apply finish_live.
    + split; [by intros ?|by intros [_ ?]].
  - unfold lift. destruct (MessageQueue.delay_elapsed _) as [q'|] eqn:Hs; [|done].
    intros [= <-]. split; [by eapply wf_delay_elapsed|]. simpl.
    unfold MessageQueue.delay_elapsed in Hs.
    destruct (awaiting_of s) as [[msg|]|]; try done. injection Hs as <-.
    split; [|by intros [? _]]. intros Hr Hne Hnone. left. by apply finish_live.
  - unfold lift. destruct (MessageQueue.timer_fired _ _) as [q'|] eqn:Hs; [|done].
    intros [= <-]. unfold MessageQueue.timer_fired in Hs.
    destruct (MessageQueue.timers (messageQueue s)) as [|k]; [done|].
    injection Hs as <-. apply Inv_process; [|done].
    destruct Hq as [H1 H2 H3 H4]. by split.
  - apply andb_true_iff in Hw as [-> ->].
    unfold notify_settled. destruct (opening s) as [|k]; [done|].
    destruct ok; simpl; intros [= <-]; unfold with_queue; simpl.
    + by apply Inv_process.
    + unfold MessageQueue.add. rewrite process_idem.
      apply Inv_process; [by apply wf_pushed|done].
Qed.

Lemma Inv_run evs : ∀ s s',
  Inv s → Forall (λ e, written_ok e = true) evs → run s evs = Some s' → Inv s'.
Proof.
  induction evs as [|e evs IH]; simpl; intros s s' Hs Hall.
  - by intros [= <-].
  - destruct (step s e) as [s1|] eqn:He; [|done].
    apply Forall_cons in Hall as [Hw Hall].
    apply IH; [|done]. by eapply Inv_step.
Qed.

(** *** What a step does to the array *)

Lemma step_queue s e s' :
  MessageQueue.wf (messageQueue s) → step s e = Some s' →
  queue_after s e = Some (queue_of s').
Proof.
  intros Hq.
  destruct e as [uuid now m w|update adminNumber sw| |ok w rw| | |ok sw uuid now m w];
    simpl.
  - intros [= <-]. simpl. by rewrite add_queue.
  - intros [= <-]. unfold handleConnectionUpdate.
    destruct (qr update), (connection update) as [[| |]|], sw, adminNumber; simpl;
      rewrite ?process_queue; try done;
      unfold handleReconnect; by repeat case_bool_decide.
  - intros [= <-]. unfold handleReconnect. by case_bool_decide.
  - unfold lift. destruct (MessageQueue.send_settled _ _ _ _) as [q'|] eqn:Hs; [|done].
    intros [= <-]. simpl.
    destruct (awaiting_of s) as [[msg|]|] eqn:Ha;
      try (unfold MessageQueue.send_settled in Hs; rewrite Ha in Hs; done).
    destruct (MessageQueue.wf_head _ Hq msg Ha) as [rest Hqu]. rewrite Hqu.
    rewrite (send_settled_eq ok w rw _ msg rest) in Hs by done.
    injection Hs as <-. by destruct ok, w; simpl; repeat case_bool_decide.
  - unfold lift. destruct (MessageQueue.delay_elapsed _) as [q'|] eqn:Hs; [|done].
    intros [= <-]. simpl. unfold MessageQueue.delay_elapsed in Hs.
    destruct (awaiting_of s) as [[msg|]|]; try done. by injection Hs as <-.
  - unfold lift. destruct (MessageQueue.timer_fired _ _) as [q'|] eqn:Hs; [|done].
    intros [= <-]. simpl. unfold MessageQueue.timer_fired in Hs.
    destruct (MessageQueue.timers _); [done|]. injection Hs as <-.
    by rewrite process_queue.
  - unfold notify_settled. destruct (opening s) as [|k]; [done|].
    destruct (ok && sw); [|destruct w]; intros [= <-]; simpl;
      rewrite ?process_queue, ?add_queue; done.
Qed.

Lemma process_calls_head b n q o st :
  calls_head (mk b n q o st) (mk b n (MessageQueue.process b q) o st).
Proof.
  unfold calls_head, MessageQueue.process. simpl.
  destruct (MessageQueue.processing q || _ || negb b) eqn:Hg; [by left|].
  destruct (MessageQueue.queue q) as [|hd rest] eqn:Hqu; [by left|].
  right. exists hd, rest. simpl. repeat split; try done.
  apply orb_false_iff in Hg as [_ Hb]. by destruct b.
Qed.

Lemma calls_head_trans_l s s1 s2 :
  attempted_of s1 = attempted_of s → calls_head s1 s2 → calls_head s s2.
Proof. intros Heq [H|H]; [left|right]; by rewrite <- Heq. Qed.

Lemma add_calls_head uuid now m w b n q o st :
  calls_head (mk b n q o st) (mk b n (MessageQueue.add uuid now m w b q) o st).
Proof.
  unfold MessageQueue.add. destruct w; [|by left].
  eapply calls_head_trans_l; [|apply process_calls_head]. done.
Qed.

Lemma step_calls_head s e s' : step s e = Some s' → calls_head s s'.
Proof.
  destruct e as [uuid now m w|update adminNumber sw| |ok w rw| | |ok sw uuid now m w];
    simpl.
  - intros [= <-]. unfold with_queue. destruct s. apply add_calls_head.
  - intros [= <-]. unfold handleConnectionUpdate.
    destruct (qr update), (connection update) as [[| |]|], sw, adminNumber; simpl;
      try (by left); try (unfold handleReconnect; repeat case_bool_decide; by left);
      unfold with_queue; simpl;
      (eapply calls_head_trans_l; [|apply process_calls_head]); done.
  - intros [= <-]. unfold handleReconnect. case_bool_decide; by left.
  - unfold lift. destruct (MessageQueue.send_settled _ _ _ _) as [q'|] eqn:Hs; [|done].
    intros [= <-]. left. simpl. unfold MessageQueue.send_settled in Hs.
    destruct (awaiting_of s) as [[msg|]|]; try done.
    destruct ok; injection Hs as <-; unfold MessageQueue.caught;
      destruct w; simpl; by repeat case_bool_decide.
  - unfold lift. destruct (MessageQueue.delay_elapsed _) as [q'|] eqn:Hs; [|done].
    intros [= <-]. left. simpl. unfold MessageQueue.delay_elapsed in Hs.
    destruct (awaiting_of s) as [[msg|]|]; try done. by injection Hs as <-.
  - unfold lift. destruct (MessageQueue.timer_fired _ _) as [q'|] eqn:Hs; [|done].
    intros [= <-]. unfold MessageQueue.timer_fired in Hs.
    destruct (MessageQueue.timers _); [done|]. injection Hs as <-.
    eapply calls_head_trans_l; [|apply process_calls_head]. done.
  - unfold notify_settled. destruct (opening s) as [|k]; [done|].
    destruct (ok && sw); [|destruct w]; intros [= <-]; unfold with_queue; simpl.
    + eapply calls_head_trans_l; [|apply process_calls_head]. done.
    + unfold MessageQueue.add. rewrite process_idem.
      eapply calls_head_trans_l; [|apply process_calls_head]. done.
    + by left.
Qed.


Lemma ref_elem_of (x : MessageQueue.Entry) l :
  x ∈ l → MessageQueue.ref x ∈ MessageQueue.refs l.
Proof. intros Hx. apply list_elem_of_fmap. by exists x. Qed.



(** C1.  Two messages are queued and the connection opens.  The transport
    refuses the first message twice and takes it the third time; then the
    [save()] of the [try] block throws.  The [catch] block, written for a
    send that failed, counts a third failure for the first message, which
    has left the array, and its [shift()] removes the second message: that
    one is gone from the array although the transport was never called for
    it and its counter is 0.  It is neither delivered nor given up after
    three refusals. *)
Theorem write_error_removes_unsent_entry :
  ∃ s s',
    run (init []) (sample_events ++ refuse ++ refuse) = Some s ∧
    queue_of s = [MessageQueue.with_attempts 2 first_entry; second_entry] ∧
    awaiting_of s =
      Some (MessageQueue.AwaitSend (MessageQueue.with_attempts 2 first_entry)) ∧
    step s (SendSettled true false true) = Some s' ∧
    run (init []) write_error_events = Some s' ∧
    queue_of s' = [] ∧
    MessageQueue.attempts second_entry = 0 ∧
    MessageQueue.ref second_entry ∉ attempted_of s' ∧
    MessageQueue.ref second_entry ∉ MessageQueue.delivered (messageQueue s') ∧
    MessageQueue.ref second_entry ∉ MessageQueue.dropped (messageQueue s') ∧
    MessageQueue.lost (messageQueue s') = [MessageQueue.ref second_entry].
Proof.
  destruct (run (init []) (sample_events ++ refuse ++ refuse)) as [s|] eqn:Hs;
    [|vm_compute in Hs; discriminate].
  destruct (step s (SendSettled true false true)) as [s'|] eqn:Hs';
    [|vm_compute in Hs; injection Hs as <-; vm_compute in Hs'; discriminate].
  exists s, s'. vm_compute in Hs. injection Hs as <-.
  vm_compute in Hs'. injection Hs' as <-.
  repeat split; try reflexivity; vm_compute; set_solver.
Qed.

(** *** Every run of the bot on its own comes to an end *)















Lemma smooth_written evs :
  Forall smooth evs → Forall (λ e, written_ok e = true) evs.
Proof. intros H. eapply Forall_impl; [exact H|]. by intros e (_ & _ & ?). Qed.

















(** C2.  Start the bot with a persisted queue and let any events happen.
    The transport has been called for entries in their order of submission
    ([ref] is the rank of submission; a retry repeats the same rank), and
    the array itself is in that order.  In any further step: [Enqueue]
    pushes the new entry, which has the highest rank, at the tail; a call of
    the transport is for the head of the array; and a head whose send fails
    short of the third time stays the head, with the entries behind it
    unchanged.  All of this holds whether or not the writes to disk
    succeed. *)
Theorem fifo_order loaded evs s e s' :
  Forall (λ x, 0 ≤ MessageQueue.attempts x ≤ 2) loaded →
  run (init loaded) evs = Some s → step s e = Some s' →
  StronglySorted le (attempted_of s') ∧
  StronglySorted lt (MessageQueue.refs (queue_of s')) ∧
  (∀ uuid now m written, e = Enqueue uuid now m written →
     queue_of s' = queue_of s ++ [new_entry s uuid now m] ∧
     Forall (λ r, r < MessageQueue.ref (new_entry s uuid now m))%nat
            (MessageQueue.refs (queue_of s))) ∧
  calls_head s s' ∧
  (∀ hd rest written rewritten, queue_of s = hd :: rest →
     e = SendSettled false written rewritten →
     MessageQueue.attempts hd + 1 < 3 →
     queue_of s' =
       MessageQueue.with_attempts (MessageQueue.attempts hd + 1) hd :: rest).
Proof.
  intros Hl Hrun Hstep.
  assert (Hs : MessageQueue.wf (messageQueue s))
    by (eapply queue_wf_run; [by apply queue_wf_init|done]).
  assert (Hs' := queue_wf_step s e s' Hs Hstep).
  assert (Hqa := step_queue s e s' Hs Hstep).
  split; [apply Hs'|]. split; [apply Hs'|]. split; [|split].
  - intros uuid now m written ->. simpl in Hqa. injection Hqa as <-. split; [done|].
    apply Hs.
  - by eapply step_calls_head.
  - intros hd rest written rewritten Hqu -> Hlt. simpl in Hqa. rewrite Hqu in Hqa.
    destruct (awaiting_of s) as [[msg|]|]; try done.
    rewrite bool_decide_eq_false_2 in Hqa by lia. by injection Hqa as <-.
Qed.

Lemma sample_run : run (init []) sample_events = Some sending.
Proof. reflexivity. Qed.

Lemma fifo_order_witness :
  StronglySorted le (attempted_of retried) ∧ calls_head sending retried ∧
  queue_of retried = [MessageQueue.with_attempts 1 first_entry; second_entry].
Proof.
  destruct (fifo_order [] sample_events sending (SendSettled false true true) retried)
    as (Hsorted & _ & _ & Hcalls & Hretry).
  - constructor.
  - reflexivity.
  - reflexivity.
  - split; [exact Hsorted|]. split; [exact Hcalls|].
    apply (Hretry first_entry [second_entry] true true);
      [reflexivity|reflexivity|simpl; lia].
Defined.


End BotFacts.

(** ** One-time codes: issue, guess, verify *)

Section IssueFacts.
Import Otp.

Lemma digits_of_digits c : is_digit c = true → digits (String c "") = String c "".
Proof. intros H. simpl. by rewrite H. Qed.

(** X1.  A code saved by [cmdSendOTP] at instant [t] verifies, under any
    spelling of the number that has the same digits, at every instant up to
    and including [t + 300000]; after that instant the answer is
    ['OTP expired']. *)
Theorem saved_code_verifies t phone phone' code' now
    (otps : gmap string OtpRecord) :
  digits phone' = digits phone →
  let otps1 := saveOTP t phone code' otps in
  (now ≤ t + 300000 → (verifyOTP now phone' code' otps1).2 = mkResult true None) ∧
  (t + 300000 < now →
     verifyOTP now phone' code' otps1 = (otps1, mkResult false (Some "OTP expired"))).
Proof.
  intros Hd otps1.
  assert (Hl : otps1 !! digits phone' = Some (mkOtp code' (t + 300000) 0)).
  { unfold otps1, saveOTP. rewrite Hd. by rewrite lookup_insert_eq. }
  split; intros Hnow.
  - change code' with (code (mkOtp code' (t + 300000) 0)) at 1.
    by rewrite verifyOTP_match.
  - by rewrite (verifyOTP_expired _ _ _ _ _ Hl).
Qed.

Lemma saved_code_verifies_witness :
  (verifyOTP 300000 "+62 811-22" "123456" (saveOTP 0 "6281122" "123456" ∅)).2 =
    mkResult true None.
Proof.
  destruct (saved_code_verifies 0 "6281122" "+62 811-22" "123456" 300000 ∅) as [H _];
    [reflexivity|].
  apply H. lia.
Defined.

Lemma guesses_wrong phone gs : ∀ (otps : gmap string OtpRecord) data,
  otps !! digits phone = Some data →
  Forall (λ g, g.1 ≤ expires data ∧ g.2 ≠ code data) gs →
  Issue.guesses phone gs otps !! digits phone =
    Some (mkOtp (code data) (expires data) (attempts data + Z.of_nat (length gs))).
Proof.
  induction gs as [|[now c] gs IH]; intros otps data Hl Hall; simpl.
  - rewrite Hl. f_equal. destruct data. simpl. f_equal. lia.
  - apply Forall_cons in Hall as [[Hnow Hc] Hall]. simpl in *.
    rewrite (verifyOTP_mismatch _ _ _ _ data) by done. simpl.
    rewrite (IH _ (bump data)); [|by rewrite lookup_insert_eq|done].
    simpl. do 2 f_equal. lia.
Qed.

(** X2.  [verifyOTP] never locks a number out.  After any run of wrong
    guesses made before the code runs out, the record is still there, its
    counter has grown by the number of guesses, and the right code, presented
    before the code runs out, is accepted. *)
Theorem wrong_guesses_never_lock phone gs (otps : gmap string OtpRecord) data now :
  otps !! digits phone = Some data →
  Forall (λ g, g.1 ≤ expires data ∧ g.2 ≠ code data) gs →
  now ≤ expires data →
  Issue.guesses phone gs otps !! digits phone =
    Some (mkOtp (code data) (expires data) (attempts data + Z.of_nat (length gs))) ∧
  (verifyOTP now phone (code data) (Issue.guesses phone gs otps)).2 = mkResult true None.
Proof.
  intros Hl Hall Hnow.
  assert (H := guesses_wrong phone gs otps data Hl Hall).
  split; [done|].
  change (code data) with
    (code (mkOtp (code data) (expires data) (attempts data + Z.of_nat (length gs)))) at 1.
  by rewrite verifyOTP_match.
Qed.

Lemma wrong_guesses_never_lock_witness :
  Issue.guesses "6281122" [(10, "000000"); (20, "111111"); (30, "")]
    (saveOTP 0 "6281122" "123456" ∅) !! "6281122" = Some (mkOtp "123456" 300000 3) ∧
  (verifyOTP 40 "6281122" "123456"
     (Issue.guesses "6281122" [(10, "000000"); (20, "111111"); (30, "")]
        (saveOTP 0 "6281122" "123456" ∅))).2 = mkResult true None.
Proof.
  destruct (wrong_guesses_never_lock "6281122"
              [(10, "000000"); (20, "111111"); (30, "")]
              (saveOTP 0 "6281122" "123456" ∅) (mkOtp "123456" 300000 0) 40)
    as [H1 H2].
  - reflexivity.
  - repeat constructor; simpl; (lia || discriminate).
  - simpl. lia.
  - split; [exact H1|exact H2].
Defined.

(** X3.  A new code replaces the one saved before for the same digits: the
    record holds the new code with the counter back at 0, and the old code,
    if it differs, is answered ['Kode salah']. *)
Theorem new_code_replaces_old t t' phone phone' old new' now
    (otps : gmap string OtpRecord) :
  digits phone' = digits phone → old ≠ new' → now ≤ t' + 300000 →
  let otps2 := saveOTP t' phone' new' (saveOTP t phone old otps) in
  otps2 !! digits phone = Some (mkOtp new' (t' + 300000) 0) ∧
  (verifyOTP now phone old otps2).2 = mkResult false (Some "Kode salah") ∧
  (verifyOTP now phone new' otps2).2 = mkResult true None.
Proof.
  intros Hd Hne Hnow otps2.
  assert (Hl : otps2 !! digits phone = Some (mkOtp new' (t' + 300000) 0)).
  { unfold otps2, saveOTP. rewrite Hd. by rewrite lookup_insert_eq. }
  split; [done|]. split.
  - rewrite (verifyOTP_mismatch _ _ _ _ _ Hl); [done|done|]. simpl. congruence.
  - change new' with (code (mkOtp new' (t' + 300000) 0)) at 1.
    by rewrite verifyOTP_match.
Qed.

Lemma new_code_replaces_old_witness :
  (verifyOTP 50 "6281122" "123456"
     (saveOTP 40 "+6281122" "654321" (saveOTP 0 "6281122" "123456" ∅))).2 =
    mkResult false (Some "Kode salah").
Proof.
  destruct (new_code_replaces_old 0 40 "6281122" "+6281122" "123456" "654321" 50 ∅)
    as (_ & H & _); [reflexivity|discriminate|lia|exact H].
Defined.

(** X4.  The answer of [verifyOTP] depends on the target only through its
    digits: any two targets with the same digits get the same answer from the
    same file.  So a target that is an e-mail address is checked against the
    code saved for the number that its digits spell. *)
Theorem answer_depends_on_digits now target target' code'
    (otps : gmap string OtpRecord) :
  digits target' = digits target →
  (verifyOTP now target' code' otps).2 = (verifyOTP now target code' otps).2.
Proof.
  intros Hd. unfold verifyOTP. rewrite Hd.
  destruct (otps !! digits target) as [data|]; [|done].
  by repeat case_bool_decide.
Qed.

Lemma answer_depends_on_digits_witness :
  (verifyOTP 10 "u6281122@mail.io" "123456" (saveOTP 0 "6281122" "123456" ∅)).2 =
    mkResult true None.
Proof.
  rewrite (answer_depends_on_digits 10 "6281122" "u6281122@mail.io");
    [reflexivity|reflexivity].
Defined.

(** *** The serverless handlers *)

Lemma issue_stores now stored sid code' body (kv : gmap string Slot) :
  Issue.body_adminCode body ≠ Some ADMIN_SECRET →
  (Issue.handler now stored sid code' body kv).1 !! key_of "otp:" (Issue.target_of body) =
    Some (mkSlot (VOtp (mkOtp code' (now + 300000) 0)) (Some (stored + 300000))).
Proof.
  intros Ha. unfold Issue.handler. rewrite bool_decide_eq_false_2 by done.
  simpl. unfold kv_set. by rewrite lookup_insert_eq.
Qed.

Lemma kv_get_slot asked key (kv : gmap string Slot) v t :
  kv !! key = Some (mkSlot v (Some t)) →
  kv_get asked key kv = if bool_decide (t ≤ asked) then None else Some v.
Proof. intros H. unfold kv_get. by rewrite H. Qed.

(** X5.  The handler of [otp.js] issues a code: it reads the clock at [t]
    and the store takes the code at [stored], so that the code runs out at
    [t + 300000] and the store forgets the key at [stored + 300000], which
    is no earlier.  The handler of [verify.js], asked for the same target,
    gets the record at [asked] and reads the clock at [now].  At any [now]
    before [t + 300000] the right code opens a session with role [user] and
    the key is deleted; so it does at [now = t + 300000] while the store
    still has the key.  A wrong code presented in that time is answered
    ['Invalid code'].  After [t + 300000], while the store still has the
    key, the answer is ['OTP expired'] and the key is deleted.  Once the
    store has forgotten the key the answer is ['OTP not found or expired']
    and the store is unchanged. *)
Theorem issued_code_verifies t stored asked now stored' sid sid' uid code' wrong
    ibody vbody (kv : gmap string Slot) :
  Issue.body_adminCode ibody ≠ Some ADMIN_SECRET →
  body_adminCode vbody ≠ Some ADMIN_SECRET →
  target_of vbody = Issue.target_of ibody →
  wrong ≠ Some code' →
  t ≤ stored → asked ≤ now →
  let kv1 := (Issue.handler t stored sid code' ibody kv).1 in
  let key := key_of "otp:" (target_of vbody) in
  (now < t + 300000 → body_code vbody = Some code' →
     ∃ kv2 user, handler asked now stored' sid' uid vbody kv1 = (kv2, Session sid' user) ∧
       role user = "user" ∧ kv2 !! key = None) ∧
  (asked < stored + 300000 → now ≤ t + 300000 → body_code vbody = Some code' →
     ∃ kv2 user, handler asked now stored' sid' uid vbody kv1 = (kv2, Session sid' user) ∧
       role user = "user" ∧ kv2 !! key = None) ∧
  (asked < stored + 300000 → now ≤ t + 300000 → body_code vbody = wrong →
     (handler asked now stored' sid' uid vbody kv1).2 = BadRequest "Invalid code") ∧
  (asked < stored + 300000 → t + 300000 < now →
     handler asked now stored' sid' uid vbody kv1 =
       (delete key kv1, BadRequest "OTP expired")) ∧
  (stored + 300000 ≤ asked →
     handler asked now stored' sid' uid vbody kv1 =
       (kv1, BadRequest "OTP not found or expired")).
Proof.
  intros Hi Hv Ht Hw Hst Has kv1 key.
  assert (Hs := issue_stores t stored sid code' ibody kv Hi). rewrite <- Ht in Hs.
  fold kv1 key in Hs.
  assert (Hget : kv_get asked key kv1 =
    if bool_decide (stored + 300000 ≤ asked) then None
    else Some (VOtp (mkOtp code' (t + 300000) 0))) by by apply kv_get_slot.
  assert (Hok : asked < stored + 300000 → now ≤ t + 300000 →
    body_code vbody = Some code' →
    ∃ kv2 user, handler asked now stored' sid' uid vbody kv1 = (kv2, Session sid' user) ∧
      role user = "user" ∧ kv2 !! key = None).
  { intros Halive Hnow Hc. rewrite bool_decide_eq_false_2 in Hget by lia.
    unfold handler. rewrite bool_decide_eq_false_2 by done. fold key.
    rewrite Hget. simpl. rewrite bool_decide_eq_false_2 by lia.
    rewrite bool_decide_eq_false_2 by (rewrite Hc; auto).
    eexists _, _. split; [done|]. split; [done|].
    unfold kv_set, kv_del.
    rewrite !lookup_insert_ne by apply key_of_inj_prefix.
    apply lookup_delete_eq. }
  split; [|split; [|split; [|split]]].
  - intros Hnow Hc. apply Hok; [lia|lia|done].
  - exact Hok.
  - intros Halive Hnow Hc. rewrite bool_decide_eq_false_2 in Hget by lia.
    rewrite (handler_mismatch _ _ _ _ _ _ _ _ Hv Hget); [done|simpl; lia|].
    simpl. rewrite Hc. congruence.
  - intros Halive Hnow. rewrite bool_decide_eq_false_2 in Hget by lia.
    by rewrite (handler_expired _ _ _ _ _ _ _ _ Hv Hget) by (simpl; lia).
  - intros Hgone. rewrite bool_decide_eq_true_2 in Hget by lia.
    by apply handler_not_found.
Qed.

Lemma issued_code_verifies_witness :
  (handler 299990 300000 300010 "s2" "u2" (otp_request "6281122" "123456")
     (Issue.handler 0 40 "s1" "123456" (Issue.phone_request "6281122") ∅).1).2 =
    Session "s2" (mkUser "u2" (Some "6281122") (Some "6281122") None "user" 300000) ∧
  (handler 300020 300030 300035 "s2" "u2" (otp_request "6281122" "123456")
     (Issue.handler 0 40 "s1" "123456" (Issue.phone_request "6281122") ∅).1).2 =
    BadRequest "OTP expired" ∧
  (handler 300040 300050 300060 "s2" "u2" (otp_request "6281122" "123456")
     (Issue.handler 0 40 "s1" "123456" (Issue.phone_request "6281122") ∅).1).2 =
    BadRequest "OTP not found or expired".
Proof.
  destruct (issued_code_verifies 0 40 299990 300000 300010 "s1" "s2" "u2" "123456" None
              (Issue.phone_request "6281122") (otp_request "6281122" "123456") ∅)
    as (_ & Hok & _);
    [discriminate|discriminate|reflexivity|discriminate|lia|lia|].
  destruct (issued_code_verifies 0 40 300020 300030 300035 "s1" "s2" "u2" "123456" None
              (Issue.phone_request "6281122") (otp_request "6281122" "123456") ∅)
    as (_ & _ & _ & Hexp & _);
    [discriminate|discriminate|reflexivity|discriminate|lia|lia|].
  destruct (issued_code_verifies 0 40 300040 300050 300060 "s1" "s2" "u2" "123456" None
              (Issue.phone_request "6281122") (otp_request "6281122" "123456") ∅)
    as (_ & _ & _ & _ & Hlate);
    [discriminate|discriminate|reflexivity|discriminate|lia|lia|].
  split; [|split].
  - destruct Hok as (kv2 & user & Heq & _); [lia|lia|reflexivity|]. reflexivity.
  - rewrite Hexp by lia. reflexivity.
  - rewrite Hlate by lia. reflexivity.
Defined.

Lemma handler_live_lookup asked key (kv : gmap string Slot) otp f :
  kv !! key = Some (mkSlot (VOtp otp) (Some f)) → asked < f →
  kv_get asked key kv = Some (VOtp otp).
Proof.
  intros H Hlt. rewrite (kv_get_slot _ _ _ _ _ H). by rewrite bool_decide_eq_false_2 by lia.
Qed.

Lemma kv_guesses_wrong target gs : ∀ (kv : gmap string Slot) otp f lo,
  let key := key_of "otp:" (target_of (otp_request target "")) in
  kv !! key = Some (mkSlot (VOtp otp) (Some f)) →
  expires otp ≤ f → expires otp ≤ lo + 300000 →
  Forall (λ g, Issue.in_order g ∧ lo ≤ Issue.guess_now g < expires otp ∧
               Issue.guess_code g ≠ code otp) gs →
  ∃ f', expires otp ≤ f' ∧
    Issue.kv_guesses target gs kv !! key =
      Some (mkSlot (VOtp (mkOtp (code otp) (expires otp)
                            (attempts otp + Z.of_nat (length gs)))) (Some f')).
Proof.
  induction gs as [|[asked now stored c] gs IH]; intros kv otp f lo key Hl Hf Hlo Hall;
    simpl.
  - exists f. split; [done|]. rewrite Hl. do 3 f_equal. destruct otp. simpl. f_equal. lia.
  - apply Forall_cons in Hall as [([Has Hst] & Hnow & Hc) Hall]. simpl in *.
    assert (Hget : kv_get asked (key_of "otp:" (target_of (otp_request target c))) kv =
                   Some (VOtp otp)) by (apply (handler_live_lookup _ _ _ _ f); [exact Hl|lia]).
    rewrite (handler_mismatch asked now stored "" "" (otp_request target c) kv otp
               ltac:(done) Hget); [|lia|simpl; congruence].
    simpl.
    destruct (IH (kv_set stored key (VOtp (bump otp)) (Some 300) kv) (bump otp)
                 (stored + 300 * 1000) lo) as (f' & Hf' & Hl'); simpl; try done; try lia.
    { unfold kv_set. by rewrite lookup_insert_eq. }
    exists f'. split; [done|]. etrans; [exact Hl'|]. simpl. do 4 f_equal. lia.
Qed.

(** X6.  The handler of [verify.js] never locks a target out.  Each wrong
    guess made while the code is valid adds one to the counter and keeps the
    key for another 300 s; after any number of them the right code, presented
    before the code runs out, still opens a session. *)
Theorem handler_never_locks target gs (kv : gmap string Slot) otp f lo
    asked now stored sid uid :
  let key := key_of "otp:" (target_of (otp_request target "")) in
  kv !! key = Some (mkSlot (VOtp otp) (Some f)) →
  expires otp ≤ f → expires otp ≤ lo + 300000 →
  Forall (λ g, Issue.in_order g ∧ lo ≤ Issue.guess_now g < expires otp ∧
               Issue.guess_code g ≠ code otp) gs →
  asked ≤ now → now < expires otp →
  (∃ f', Issue.kv_guesses target gs kv !! key =
      Some (mkSlot (VOtp (mkOtp (code otp) (expires otp)
                            (attempts otp + Z.of_nat (length gs)))) (Some f'))) ∧
  ∃ kv2 user,
    handler asked now stored sid uid (otp_request target (code otp))
      (Issue.kv_guesses target gs kv) = (kv2, Session sid user).
Proof.
  intros key Hl Hf Hlo Hall Has Hnow.
  destruct (kv_guesses_wrong target gs kv otp f lo Hl Hf Hlo Hall) as (f' & Hf' & Hl').
  split; [by exists f'|].
  assert (Hget : kv_get asked (key_of "otp:" (target_of (otp_request target (code otp))))
                   (Issue.kv_guesses target gs kv) = Some (VOtp
                     (mkOtp (code otp) (expires otp) (attempts otp + Z.of_nat (length gs)))))
    by (apply (handler_live_lookup _ _ _ _ f'); [exact Hl'|lia]).
  unfold handler. rewrite bool_decide_eq_false_2 by done.
  rewrite Hget. simpl.
  rewrite bool_decide_eq_false_2 by lia.
  rewrite bool_decide_eq_false_2 by auto. by eexists _, _.
Qed.

Lemma handler_never_locks_witness :
  ∃ kv2 user,
    handler 190 200 210 "s2" "u2" (otp_request "6281122" "123456")
      (Issue.kv_guesses "6281122"
         [Issue.mkGuess 5 10 15 "000000"; Issue.mkGuess 18 20 25 "111111"]
         (Issue.handler 0 40 "s1" "123456" (Issue.phone_request "6281122") ∅).1) =
      (kv2, Session "s2" user).
Proof.
  destruct (handler_never_locks "6281122"
              [Issue.mkGuess 5 10 15 "000000"; Issue.mkGuess 18 20 25 "111111"]
              (Issue.handler 0 40 "s1" "123456" (Issue.phone_request "6281122") ∅).1
              (mkOtp "123456" 300000 0) 300040 0 190 200 210 "s2" "u2") as [_ H].
  - reflexivity.
  - simpl. lia.
  - simpl. lia.
  - repeat constructor; simpl; (lia || discriminate).
  - lia.
  - simpl. lia.
  - exact H.
Defined.

(** X7.  A wrong guess whose clock read [t1] keeps the key until 300 s after
    the store has taken it, at [stored1], no earlier than [t1]; that can be
    later than the instant at which the code runs out.  In between, the
    handler answers ['OTP expired'] to any code, the right one included, and
    deletes the key. *)
Theorem refreshed_key_expires asked1 t1 stored1 asked now stored sid uid body body'
    (kv : gmap string Slot) otp f :
  let key := key_of "otp:" (target_of body) in
  body_adminCode body ≠ Some ADMIN_SECRET → body_adminCode body' ≠ Some ADMIN_SECRET →
  target_of body' = target_of body →
  kv !! key = Some (mkSlot (VOtp otp) (Some f)) →
  asked1 ≤ t1 ≤ stored1 → asked ≤ now →
  t1 < f → t1 ≤ expires otp → Some (code otp) ≠ body_code body →
  expires otp < now < t1 + 300000 →
  let kv1 := (handler asked1 t1 stored1 sid uid body kv).1 in
  handler asked now stored sid uid body' kv1 =
    (delete key kv1, BadRequest "OTP expired") ∧
  delete key kv1 !! key = None.
Proof.
  intros key Ha Ha' Ht Hl Ho1 Ho Hf Ht1 Hc Hnow kv1. subst key.
  assert (Hget := handler_live_lookup asked1 _ _ _ f Hl ltac:(lia)).
  assert (Hkv1 : kv1 = kv_set stored1 (key_of "otp:" (target_of body)) (VOtp (bump otp))
                         (Some 300) kv).
  { unfold kv1. by rewrite (handler_mismatch _ _ _ _ _ _ _ _ Ha Hget). }
  assert (Hl1 : kv1 !! key_of "otp:" (target_of body) =
                Some (mkSlot (VOtp (bump otp)) (Some (stored1 + 300 * 1000)))).
  { rewrite Hkv1. unfold kv_set. by rewrite lookup_insert_eq. }
  assert (Hget1 := handler_live_lookup asked _ _ _ _ Hl1 ltac:(lia)).
  split; [|apply lookup_delete_eq].
  rewrite <- Ht in Hget1.
  rewrite (handler_expired _ _ _ _ _ _ _ _ Ha' Hget1); [|simpl; lia].
  by rewrite Ht.
Qed.

Lemma refreshed_key_expires_witness :
  (handler 300490 300500 300510 "s" "u" (otp_request "6281122" "123456")
     (handler 298990 299000 299010 "s" "u" (otp_request "6281122" "000000")
        (Issue.handler 0 40 "s1" "123456" (Issue.phone_request "6281122") ∅).1).1).2 =
    BadRequest "OTP expired".
Proof.
  destruct (refreshed_key_expires 298990 299000 299010 300490 300500 300510 "s" "u"
              (otp_request "6281122" "000000") (otp_request "6281122" "123456")
              (Issue.handler 0 40 "s1" "123456" (Issue.phone_request "6281122") ∅).1
              (mkOtp "123456" 300000 0) 300040) as [H _];
    [discriminate|discriminate|reflexivity|reflexivity|lia|lia|lia|simpl; lia|discriminate|
     simpl; lia|].
  by rewrite H.
Defined.

(** X8.  The admin secret opens an admin session whatever target and code
    come with it and whatever the store holds: the answer is [AdminSession],
    every other key of the store is as before, and the session key holds the
    administrator for 86400 s from the instant the store takes it.  Without
    the secret the answer is never [AdminSession], and a session that is
    opened has role [user]. *)
Theorem admin_secret_bypasses_otp asked now stored sid uid body (kv : gmap string Slot) :
  (body_adminCode body = Some ADMIN_SECRET →
     (handler asked now stored sid uid body kv).2 = AdminSession sid ∧
     (∀ key, key ≠ key_of "session:" (Some sid) →
        (handler asked now stored sid uid body kv).1 !! key = kv !! key) ∧
     ∃ admin, role admin = "admin" ∧
       (handler asked now stored sid uid body kv).1 !! key_of "session:" (Some sid) =
         Some (mkSlot (VUser admin) (Some (stored + 86400 * 1000)))) ∧
  (body_adminCode body ≠ Some ADMIN_SECRET →
     (∀ sid', (handler asked now stored sid uid body kv).2 ≠ AdminSession sid') ∧
     ∀ sid' user, (handler asked now stored sid uid body kv).2 = Session sid' user →
       role user = "user").
Proof.
  split; intros Ha; unfold handler.
  - rewrite bool_decide_eq_true_2 by done. simpl. split; [done|]. split.
    + intros key Hne. unfold kv_set. by rewrite lookup_insert_ne.
    + eexists. split; [|unfold kv_set; by rewrite lookup_insert_eq]. done.
  - rewrite bool_decide_eq_false_2 by done.
    destruct (kv_get asked _ kv) as [[otp|]|]; simpl; try done.
    repeat case_bool_decide; simpl; try done.
    split; [done|]. by intros ?? [= _ <-].
Qed.

Lemma admin_secret_bypasses_otp_witness :
  (handler 0 0 5 "s" "u" (mkBody None None None (Some "#6287717274346")) ∅).2 =
    AdminSession "s" ∧
  ∀ sid', (handler 0 0 5 "s" "u" (otp_request "6281122" "#6287717274346") ∅).2 ≠
    AdminSession sid'.
Proof.
  destruct (admin_secret_bypasses_otp 0 0 5 "s" "u"
              (mkBody None None None (Some "#6287717274346")) ∅) as [H _].
  destruct (admin_secret_bypasses_otp 0 0 5 "s" "u"
              (otp_request "6281122" "#6287717274346") ∅) as [_ H'].
  split; [apply H; reflexivity|apply H'; discriminate].
Defined.

End IssueFacts.

(** ** The limiter: what it lets through *)

Section SpamLogFacts.
Import AntiSpam SpamLog.

Lemma filter_sublist_mono {A} (P : A → Prop) `{!∀ x, Decision (P x)} (l1 l2 : list A) :
  l1 `sublist_of` l2 → filter P l1 `sublist_of` filter P l2.
Proof.
  induction 1 as [|x l1 l2 Hs IH|x l1 l2 Hs IH]; [done| |].
  - rewrite !filter_cons. destruct (decide (P x)); [by constructor|done].
  - rewrite filter_cons. destruct (decide (P x)); [by constructor|done].
Qed.

Lemma filter_weaken {A} (P Q : A → Prop)
    `{!∀ x, Decision (P x)} `{!∀ x, Decision (Q x)} (l : list A) :
  (∀ x, P x → Q x) → filter P l `sublist_of` filter Q l.
Proof.
  intros HPQ. induction l as [|x l IH]; [done|].
  rewrite !filter_cons.
  destruct (decide (P x)) as [HP|HP], (decide (Q x)) as [HQ|HQ].
  - by constructor.
  - destruct HQ. by apply HPQ.
  - by constructor.
  - done.
Qed.

(** The clock moves on and nothing else happens to the sender. *)
Lemma remembers_later tl now (A H : list Z) :
  tl ≤ now →
  filter (λ a, tl - a < limit_window) A `sublist_of` H →
  filter (λ a, now - a < limit_window) A `sublist_of` H.
Proof.
  intros Hle Hs. etrans; [|exact Hs]. apply filter_weaken. intros a. lia.
Qed.

Lemma tally_history now userId s :
  history userId (tally now userId s).1 =
    filter (λ time, now - time < limit_window) (history userId s) ++ [now].
Proof.
  unfold tally, history. case_bool_decide; simpl; by rewrite lookup_insert_eq.
Qed.

Lemma tally_history_other now userId other s :
  other ≠ userId → history other (tally now userId s).1 = history other s.
Proof.
  intros Hne. unfold tally, history. case_bool_decide; simpl;
    by rewrite lookup_insert_ne.
Qed.

Lemma tally_allowed_short now userId s s' :
  tally now userId s = (s', Allowed) → (length (history userId s') ≤ 10)%nat.
Proof.
  intros Ht. assert (Hh := tally_history now userId s). rewrite Ht in Hh.
  simpl in Hh. rewrite Hh. unfold tally in Ht. revert Ht.
  case_bool_decide as Hlen; [done|]. intros _. unfold history, limit_messages in *. lia.
Qed.

Lemma check_history_other now userId other s :
  other ≠ userId → history other (check now userId s).1 = history other s.
Proof.
  intros Hne. destruct (decide (userId ∈ banned s)).
  - by rewrite check_banned.
  - rewrite check_not_banned by done. by apply tally_history_other.
Qed.

Lemma remembers_observe tl l e l' :
  remembers tl l → tl ≤ at_time e → observe l e = Some l' →
  remembers (at_time e) l'.
Proof.
  intros Hrem Hle. destruct e as [now u|now i]; simpl in *.
  - destruct (check now u (limiter l)) as [s' v] eqn:Hchk. intros [= <-].
    intros v'. destruct (Hrem v') as [Hsub Hwin].
    destruct (decide (v' = u)) as [->|Hne].
    + destruct (decide (u ∈ banned (limiter l))) as [Hb|Hb].
      * rewrite check_banned in Hchk by done. injection Hchk as <- <-.
        split; [|done]. by eapply remembers_later.
      * rewrite check_not_banned in Hchk by done.
        assert (Hh := tally_history now u (limiter l)). rewrite Hchk in Hh.
        simpl in Hh.
        assert (Hkeep : filter (λ a, now - a < limit_window) (admitted_to u l)
                  `sublist_of` filter (λ time, now - time < limit_window)
                                 (history u (limiter l))).
        { etrans; [|by apply filter_sublist_mono].
          rewrite list_filter_filter. apply filter_weaken. intros a. lia. }
        destruct v; simpl.
        -- unfold admitted_to at 1 3. simpl. rewrite lookup_insert_eq. simpl.
           fold (admitted_to u l). split.
           ++ rewrite filter_app, Hh.
              rewrite filter_cons_True by (unfold limit_window; lia).
              by apply sublist_app.
           ++ intros t. destruct (decide (now ≤ t)) as [Ht|Ht].
              ** apply tally_allowed_short in Hchk. etrans; [|exact Hchk].
                 rewrite Hh. apply sublist_length.
                 etrans; [apply (filter_weaken _ (λ a, now - a < limit_window))|].
                 { unfold in_window. intros a. lia. }
                 rewrite filter_app.
                 rewrite filter_cons_True by (unfold limit_window; lia).
                 by apply sublist_app.
              ** rewrite filter_app.
                 rewrite filter_cons_False by (unfold in_window; lia).
                 rewrite app_nil_r. apply Hwin.
        -- unfold tally in Hchk. by case_bool_decide.
        -- split; [|done]. rewrite Hh. by apply sublist_inserts_r.
    + assert (Hh := check_history_other now u v' (limiter l) Hne).
      rewrite Hchk in Hh. simpl in Hh.
      assert (Ha : admitted_to v' (mk s' match v with
                     | Allowed => <[u := admitted_to u l ++ [now]]> (admitted l)
                     | _ => admitted l end) = admitted_to v' l).
      { unfold admitted_to at 1. simpl. destruct v; try done.
        by rewrite lookup_insert_ne. }
      rewrite Ha. simpl. rewrite Hh. split; [|done]. by eapply remembers_later.
  - destruct (fire now i (limiter l)) as [s'|] eqn:Hf; [|done]. simpl.
    intros [= <-]. intros v'. destruct (Hrem v') as [Hsub Hwin].
    assert (Hh : history v' s' = history v' (limiter l)).
    { unfold fire in Hf. destruct (timers (limiter l) !! i) as [[due u]|]; [|done].
      case_bool_decide; [|done]. by injection Hf as <-. }
    unfold admitted_to. simpl. rewrite Hh. split; [|done]. by eapply remembers_later.
Qed.

Lemma remembers_observe_all evs : ∀ tl l l',
  remembers tl l → Forall (λ e, tl ≤ at_time e) evs → monotone evs →
  observe_all l evs = Some l' → ∃ tl', remembers tl' l'.
Proof.
  induction evs as [|e evs IH]; simpl; intros tl l l' Hrem Hall Hmono.
  - intros [= <-]. by exists tl.
  - destruct (observe l e) as [l1|] eqn:Ho; [|done].
    apply Forall_cons in Hall as [Hle Hall].
    apply StronglySorted_inv in Hmono as [Hmono Hhd].
    apply (IH (at_time e)); [by eapply remembers_observe|done|done].
Qed.

Lemma remembers_start tl : remembers tl start.
Proof.
  intros u. unfold admitted_to, start. simpl. rewrite lookup_empty. simpl.
  split; [apply sublist_nil_l|]. intros t. simpl. lia.
Qed.

(** X9.  The rate the limiter enforces.  Start the limiter and let checks of
    any senders and unban timers happen in any order, with a clock that does
    not go back.  Then for every sender and every instant [t], at most 10 of
    the sender's checks in the 10 s that end at [t] were answered
    [Allowed]. *)
Theorem at_most_ten_per_window evs l userId t :
  monotone evs → observe_all start evs = Some l →
  (length (filter (in_window t) (admitted_to userId l)) ≤ 10)%nat.
Proof.
  intros Hmono Hrun.
  destruct evs as [|e evs].
  - injection Hrun as <-. apply (remembers_start 0).
  - destruct (remembers_observe_all (e :: evs) (at_time e) start l) as [tl Hrem];
      [apply remembers_start| |done|done|by apply Hrem].
    constructor; [lia|]. by apply StronglySorted_inv in Hmono as [_ ?].
Qed.

Lemma monotone_slow_burst : monotone slow_burst.
Proof.
  unfold monotone, slow_burst. simpl.
  repeat (constructor; [|repeat (constructor; [simpl; lia|]); constructor]).
  constructor.
Qed.

Lemma at_most_ten_per_window_witness :
  ∃ l, observe_all start slow_burst = Some l ∧
    admitted_to spammer l =
      [0; 900; 1800; 2700; 3600; 4500; 5400; 6300; 7200; 8100; 310000] ∧
    (length (filter (in_window 9000) (admitted_to spammer l)) ≤ 10)%nat.
Proof.
  destruct (observe_all start slow_burst) as [l|] eqn:H;
    [|vm_compute in H; discriminate].
  exists l. split; [reflexivity|]. split.
  - vm_compute in H. injection H as <-. reflexivity.
  - apply (at_most_ten_per_window slow_burst);
      [apply monotone_slow_burst|exact H].
Defined.

Lemma bounded_later tl tl' s : bounded tl s → tl ≤ tl' → bounded tl' s.
Proof.
  intros Hb Hle u. destruct (Hb u) as [Hall Hlen]. split.
  - eapply Forall_impl; [exact Hall|]. simpl. lia.
  - destruct Hlen as [?|[H11 [?|[Hnb Hold]]]]; [by left|right..].
    + split; [done|by left].
    + split; [done|right]. split; [done|].
      eapply Forall_impl; [exact Hold|]. simpl. lia.
Qed.

Lemma fire_history now i s s' userId :
  fire now i s = Some s' → history userId s' = history userId s.
Proof.
  unfold fire. destruct (timers s !! i) as [[due u]|]; [|done].
  case_bool_decide; [|done]. by intros [= <-].
Qed.

Lemma bounded_check tl now userId s :
  AntiSpam.wf s → bounded tl s → tl ≤ now → bounded now (check now userId s).1.
Proof.
  intros [Hsub Hnd] Hb Hle.
  destruct (decide (userId ∈ banned s)) as [Hban|Hban].
  { rewrite check_banned by done. by eapply bounded_later. }
  rewrite check_not_banned by done. intros u.
  destruct (Hb u) as [Hall Hlen].
  destruct (decide (u = userId)) as [->|Hne].
  - rewrite tally_history.
    assert (Hall' : Forall (λ h, h ≤ now)
              (filter (λ time, now - time < limit_window) (history userId s) ++ [now])).
    { apply Forall_app. split; [|by repeat constructor].
      apply Forall_forall. intros h [_ Hin]%list_elem_of_filter.
      eapply Forall_forall in Hall; [|done]. simpl in Hall. lia. }
    split; [done|].
    assert (Hshort : (length (filter (λ time, (now - time < limit_window)%Z)
                                (history userId s)) ≤ 10)%nat).
    { destruct Hlen as [?|[H11 [(due & Hin & _)|[_ Hold]]]].
      - etrans; [apply length_filter|done].
      - destruct Hban. by eapply Hsub.
      - rewrite filter_none; [simpl; lia|]. intros h Hin.
        eapply Forall_forall in Hold; [|done]. simpl in Hold.
        unfold limit_window, limit_blockDuration in *. lia. }
    unfold tally. fold (history userId s). case_bool_decide as Hover; simpl.
    + right. rewrite length_app in *. simpl in *. unfold limit_messages in Hover.
      split; [lia|]. left. exists (now + limit_blockDuration).
      split; [set_solver|].
      eapply Forall_impl; [exact Hall'|]. simpl. lia.
    + left. rewrite length_app in *. simpl in *. unfold limit_messages in Hover. lia.
  - rewrite tally_history_other by done. split.
    { eapply Forall_impl; [exact Hall|]. simpl. lia. }
    destruct Hlen as [?|[H11 [(due & Hin & Hold)|[Hnb Hold]]]]; [by left|right..].
    + split; [done|]. left. exists due. split; [|done].
      destruct (tally_timers_prefix now userId s) as [k ->]. set_solver.
    + split; [done|]. right. split.
      * unfold tally. case_bool_decide; simpl; set_solver.
      * eapply Forall_impl; [exact Hold|]. simpl. lia.
Qed.

Lemma bounded_fire tl now i s s' :
  AntiSpam.wf s → bounded tl s → tl ≤ now → fire now i s = Some s' → bounded now s'.
Proof.
  intros [Hsub Hnd] Hb Hle Hf u.
  rewrite (fire_history _ _ _ _ u Hf). destruct (Hb u) as [Hall Hlen].
  split; [eapply Forall_impl; [exact Hall|]; simpl; lia|].
  destruct Hlen as [?|[H11 Hcase]]; [by left|right]. split; [done|].
  unfold fire in Hf. destruct (timers s !! i) as [[due w]|] eqn:Hi; [|done].
  case_bool_decide as Hdue; [|done]. injection Hf as <-. simpl.
  destruct (decide (u = w)) as [->|Hne].
  - right. split; [set_solver|].
    destruct Hcase as [(due' & Hin & Hold)|[Hnb Hold]].
    + assert (due' = due) as ->.
      { apply list_elem_of_lookup_2 in Hi.
        apply list_elem_of_lookup in Hin as [j Hj].
        apply list_elem_of_lookup in Hi as [i' Hi'].
        assert (j = i') as ->; [|congruence].
        eapply NoDup_lookup; [exact Hnd| |]; rewrite list_lookup_fmap.
        - by rewrite Hj.
        - by rewrite Hi'. }
      eapply Forall_impl; [exact Hold|]. simpl. lia.
    + eapply Forall_impl; [exact Hold|]. simpl. lia.
  - destruct Hcase as [(due' & Hin & Hold)|[Hnb Hold]].
    + left. exists due'. split; [|done].
      eapply delete_keeps; [done..|]. congruence.
    + right. split; [set_solver|].
      eapply Forall_impl; [exact Hold|]. simpl. lia.
Qed.

Lemma bounded_run evs : ∀ tl s s' now,
  AntiSpam.wf s → bounded tl s → Forall (λ e, tl ≤ at_time e) evs → monotone evs →
  run s evs = Some s' → tl ≤ now → Forall (λ e, at_time e ≤ now) evs →
  AntiSpam.wf s' ∧ bounded now s'.
Proof.
  induction evs as [|e evs IH]; simpl; intros tl s s' now Hwf Hb Hall Hmono Hrun Hle Hnow.
  - injection Hrun as <-. split; [done|]. by eapply bounded_later.
  - destruct (step s e) as [s1|] eqn:He; [|done].
    apply Forall_cons in Hall as [Hte Hall].
    apply Forall_cons in Hnow as [Hen Hnow].
    apply StronglySorted_inv in Hmono as [Hmono Hhd].
    apply (IH (at_time e) s1); try done.
    + by eapply wf_step.
    + destruct e as [t u|t i]; simpl in *.
      * injection He as <-. by apply (bounded_check tl).
      * by apply (bounded_fire tl t i s).
Qed.

Lemma bounded_init tl : bounded tl init.
Proof.
  intros u. unfold history, init. simpl. rewrite lookup_empty. simpl.
  split; [done|]. left. lia.
Qed.

(** X10.  The limiter keeps at most 11 stamps per sender.  From a fresh
    limiter and with a clock that does not go back, whatever checks and unban
    timers happen, no sender's history is longer than 11; and a sender whose
    history is full and whose ban has been lifted starts afresh: the next
    check is answered [Allowed] and leaves one stamp. *)
Theorem history_at_most_eleven evs s userId now :
  monotone evs → run init evs = Some s → Forall (λ e, at_time e ≤ now) evs →
  (length (history userId s) ≤ 11)%nat ∧
  (userId ∉ banned s → length (history userId s) = 11%nat →
     (check now userId s).2 = Allowed ∧
     history userId (check now userId s).1 = [now]).
Proof.
  intros Hmono Hrun Hnow.
  assert (Hb : AntiSpam.wf s ∧ bounded now s).
  { destruct evs as [|e evs].
    - injection Hrun as <-. split; [apply wf_init|apply bounded_init].
    - apply (bounded_run (e :: evs) (at_time e) init); try done.
      + apply wf_init.
      + apply bounded_init.
      + constructor; [lia|]. by apply StronglySorted_inv in Hmono as [_ ?].
      + by apply Forall_cons in Hnow as [? _]. }
  destruct Hb as [[Hsub _] Hb]. destruct (Hb userId) as [_ Hlen]. split.
  - destruct Hlen as [?|[-> _]]; lia.
  - intros Hnb H11.
    destruct Hlen as [?|[_ [(due & Hin & _)|[_ Hold]]]]; [lia| |].
    { destruct Hnb. by eapply Hsub. }
    rewrite check_not_banned by done.
    assert (Hf : filter (λ time, now - time < limit_window) (history userId s) = []).
    { apply filter_none. intros h Hin. eapply Forall_forall in Hold; [|done].
      simpl in Hold. unfold limit_window, limit_blockDuration in *. lia. }
    split.
    + unfold tally. fold (history userId s). by rewrite Hf.
    + by rewrite tally_history, Hf.
Qed.

Lemma history_at_most_eleven_witness :
  ∃ s, run init (take 12 slow_burst) = Some s ∧
    length (history spammer s) = 11%nat ∧
    (check 310000 spammer s).2 = Allowed.
Proof.
  destruct (run init (take 12 slow_burst)) as [s|] eqn:H;
    [|vm_compute in H; discriminate].
  exists s. split; [reflexivity|].
  destruct (history_at_most_eleven (take 12 slow_burst) s spammer 310000) as [_ Hnext].
  - unfold monotone. change (take 12 slow_burst) with
      (((λ k, ECheck (900 * Z.of_nat k) spammer) <$> seq 0 11) ++ [EFire 310000 0]).
    simpl. repeat (constructor; [|repeat (constructor; [simpl; lia|]); constructor]).
    constructor.
  - exact H.
  - change (take 12 slow_burst) with
      (((λ k, ECheck (900 * Z.of_nat k) spammer) <$> seq 0 11) ++ [EFire 310000 0]).
    simpl. repeat (constructor; [simpl; lia|]). constructor.
  - assert (H11 : length (history spammer s) = 11%nat)
      by (vm_compute in H; injection H as <-; reflexivity).
    split; [exact H11|]. apply Hnext; [|exact H11].
    vm_compute in H. injection H as <-. vm_compute. set_solver.
Defined.

Lemma verdict_view now userId s s' :
  (userId ∈ banned s' ↔ userId ∈ banned s) →
  messages s' !! userId = messages s !! userId →
  (check now userId s').2 = (check now userId s).2.
Proof.
  intros Hb Hm. unfold check, getRemainingBlock.
  destruct (decide (userId ∈ banned s)) as [H|H].
  - by rewrite !bool_decide_true by (tauto || done).
  - rewrite !bool_decide_false by tauto.
    unfold tally. simpl. rewrite Hm. by case_bool_decide.
Qed.

Lemma foreign_step userId s e s' :
  owner s e ≠ Some userId → step s e = Some s' →
  (userId ∈ banned s' ↔ userId ∈ banned s) ∧
  messages s' !! userId = messages s !! userId.
Proof.
  destruct e as [now u|now i]; simpl; intros Ho Hs.
  - assert (u ≠ userId) as Hne by congruence.
    injection Hs as <-. unfold check, getRemainingBlock.
    case_bool_decide; [done|].
    unfold tally. case_bool_decide; simpl.
    + rewrite lookup_insert_ne by done. split; [set_solver|done].
    + by rewrite lookup_insert_ne.
  - unfold fire in Hs. destruct (timers s !! i) as [[due u]|] eqn:Ht; [|done].
    simpl in Ho. assert (u ≠ userId) as Hne by congruence.
    case_bool_decide; [|done]. injection Hs as <-. simpl.
    split; [set_solver|done].
Qed.

(** X11.  Senders do not affect one another.  Whatever other senders do
    (messages checked, bans, unban timers run), a sender's ban status and
    history are unchanged and [check] gives that sender the verdict it would
    have given before. *)
Theorem senders_are_independent evs s s' userId :
  foreign userId s evs → run s evs = Some s' →
  (userId ∈ banned s' ↔ userId ∈ banned s) ∧
  history userId s' = history userId s ∧
  ∀ now, (check now userId s').2 = (check now userId s).2.
Proof.
  intros Hf Hr.
  assert ((userId ∈ banned s' ↔ userId ∈ banned s) ∧
          messages s' !! userId = messages s !! userId) as [Hb Hm].
  { revert s Hf Hr. induction evs as [|e evs IH]; intros s Hf Hr.
    - by injection Hr as <-.
    - simpl in Hf, Hr. destruct Hf as [Ho Hf].
      destruct (step s e) as [s1|] eqn:Hs; [|done].
      destruct (foreign_step userId s e s1 Ho Hs) as [Hb1 Hm1].
      destruct (IH s1 Hf Hr) as [Hb2 Hm2].
      split; [tauto|congruence]. }
  split; [done|]. split; [unfold history; by rewrite Hm|].
  intros now. by apply verdict_view.
Qed.

Lemma senders_are_independent_witness :
  ∃ s', run init flood = Some s' ∧ spammer ∈ banned s' ∧
    (check 9000 bystander s').2 = Allowed.
Proof.
  destruct (run init flood) as [s'|] eqn:Hr; [|vm_compute in Hr; discriminate].
  exists s'. split; [done|]. split.
  - vm_compute in Hr. injection Hr as <-. set_solver.
  - destruct (senders_are_independent flood init s' bystander) as (_ & _ & H);
      [simpl; repeat split; discriminate|exact Hr|].
    rewrite H. reflexivity.
Defined.

End SpamLogFacts.

(** ** The queue: bounded retry and conservation *)

Section QueueAuditFacts.
Import MessageQueue QueueAudit.

Lemma calls_snoc (r r' : nat) (att : list nat) :
  length (filter (λ x, x = r) (att ++ [r'])) =
    (length (filter (λ x, x = r) att) + if decide (r' = r) then 1 else 0)%nat.
Proof.
  rewrite filter_app, length_app. f_equal.
  rewrite filter_cons. by destruct (decide (r' = r)).
Qed.

Lemma calls_fresh r q :
  Forall (λ x, x < r)%nat (attempted q) → calls r q = 0%nat.
Proof.
  intros H. unfold calls. rewrite filter_none; [done|].
  intros x Hx ->. eapply Forall_forall in H; [|done]. simpl in H. lia.
Qed.

(** An entry moves from the head of the array to one of the records. *)
Lemma perm_delivered (a : nat) l d x lo :
  (a :: l) ++ d ++ x ++ lo ≡ₚ l ++ (d ++ [a]) ++ x ++ lo.
Proof.
  rewrite <- (app_assoc d [a]). simpl.
  rewrite (app_assoc l d (a :: x ++ lo)). rewrite <- Permutation_middle.
  by rewrite <- app_assoc.
Qed.

Lemma perm_dropped (a : nat) l d x lo :
  (a :: l) ++ d ++ x ++ lo ≡ₚ l ++ d ++ (x ++ [a]) ++ lo.
Proof.
  rewrite <- (app_assoc x [a] lo). simpl.
  rewrite (app_assoc d x (a :: lo)), (app_assoc l (d ++ x) (a :: lo)).
  rewrite <- Permutation_middle. by rewrite <- !app_assoc.
Qed.

Lemma perm_lost (a : nat) l d x lo :
  (a :: l) ++ d ++ x ++ lo ≡ₚ l ++ d ++ x ++ (lo ++ [a]).
Proof.
  rewrite (app_assoc x lo [a]), (app_assoc d (x ++ lo) [a]),
    (app_assoc l (d ++ x ++ lo) [a]).
  by rewrite <- Permutation_cons_append.
Qed.

Lemma perm_push (a : nat) l m : (l ++ [a]) ++ m ≡ₚ a :: l ++ m.
Proof. rewrite <- app_assoc. simpl. by rewrite <- Permutation_middle. Qed.

Lemma audit_new loaded : audit (new loaded).
Proof.
  split; simpl.
  - intros e _. unfold calls. simpl. lia.
  - intros r _. unfold calls. simpl. lia.
  - unfold places. simpl. rewrite app_nil_r, refs_number. apply NoDup_seq.
  - intros r. unfold places. simpl. rewrite app_nil_r, refs_number.
    rewrite elem_of_seq. lia.
Qed.

Lemma audit_process ready q : wf q → audit q → audit (process ready q).
Proof.
  intros Hq Haudit. unfold process.
  destruct (processing q || _ || _) eqn:Hg; [done|].
  destruct (queue q) as [|msg rest] eqn:Hqu; [done|].
  destruct Haudit as [H1 H2 H3 H4].
  assert (Hidle : awaiting q = None).
  { destruct (processing q) eqn:Hp; [done|].
    destruct (awaiting q) as [a|] eqn:Ha; [|done].
    assert (processing q = true); [|congruence].
    apply (wf_processing q Hq). by rewrite Ha. }
  assert (Hsorted := ok_sorted _ _ _ (wf_data q Hq)). rewrite Hqu in Hsorted.
  split; unfold calls, in_flight, places in *; simpl; rewrite ?Hqu in *.
  - intros e He. rewrite calls_snoc. specialize (H1 e He).
    rewrite Hidle in H1. destruct (decide (ref msg = ref e)); lia.
  - intros r Hr. rewrite calls_snoc. specialize (H2 r Hr).
    destruct (decide (ref msg = r)) as [<-|?]; [|lia].
    destruct Hr. simpl. by left.
  - done.
  - done.
Qed.

Lemma audit_pushed uuid now m q :
  wf q → audit q →
  audit (mk (queue q ++ [mkEntry (next_ref q) uuid m now 0]) (processing q) (awaiting q)
            (timers q) (S (next_ref q)) (attempted q) (delivered q) (dropped q) (lost q)).
Proof.
  intros Hq [H1 H2 H3 H4].
  assert (Hfresh : calls (next_ref q) q = 0%nat)
    by (apply calls_fresh, (ok_attempted_fresh _ _ _ (wf_data q Hq))).
  assert (Hnew : next_ref q ∉ places q) by (intros Hin; apply H4 in Hin; lia).
  split; unfold calls, in_flight, places in *; simpl.
  - intros e [He| ->%list_elem_of_singleton]%elem_of_app; [by apply H1|].
    simpl. rewrite Hfresh. lia.
  - intros r Hr. apply H2. intros Hin. apply Hr. unfold refs.
    rewrite fmap_app. set_solver.
  - unfold refs. rewrite fmap_app. simpl. rewrite perm_push.
    apply NoDup_cons. split; [done|done].
  - intros r. unfold refs. rewrite fmap_app. simpl. rewrite perm_push.
    rewrite elem_of_cons, <- H4. lia.
Qed.

Lemma audit_add uuid now m w ready q :
  wf q → audit q → audit (add uuid now m w ready q).
Proof.
  intros Hq Ha. unfold add.
  destruct w; [apply audit_process; [by apply wf_pushed|]|]; by apply audit_pushed.
Qed.

Lemma audit_send_settled ok w rw q q' :
  wf q → audit q → send_settled ok w rw q = Some q' → audit q'.
Proof.
  intros Hq [H1 H2 H3 H4].
  destruct (awaiting q) as [[msg|]|] eqn:Ha;
    try (unfold send_settled; rewrite Ha; done).
  destruct (wf_head q Hq msg Ha) as [rest Hqu].
  assert (Hsorted := ok_sorted _ _ _ (wf_data q Hq)). rewrite Hqu in Hsorted.
  assert (Hatts := ok_attempts _ _ _ (wf_data q Hq)). rewrite Hqu in Hatts.
  assert (Hatt := head_attempts q msg rest Hq Hqu).
  assert (Hhead : (calls (ref msg) q ≤ Z.to_nat (attempts msg) + 1)%nat).
  { specialize (H1 msg). rewrite Hqu in H1. specialize (H1 ltac:(by left)).
    unfold in_flight in H1. rewrite Ha in H1.
    destruct (decide (ref msg = ref msg)); [lia|done]. }
  assert (Hrest : ∀ e, e ∈ rest → ref e ≠ ref msg).
  { intros e He Heq. apply StronglySorted_inv in Hsorted as [_ Hlt].
    eapply Forall_forall in Hlt; [|by apply ref_elem_of]. simpl in Hlt. lia. }
  assert (Hothers : ∀ e, e ∈ rest → (calls (ref e) q ≤ Z.to_nat (attempts e))%nat).
  { intros e He. specialize (H1 e). rewrite Hqu in H1.
    specialize (H1 ltac:(by right)). unfold in_flight in H1. rewrite Ha in H1.
    destruct (decide (ref msg = ref e)) as [Heq|?]; [|lia].
    by destruct (Hrest e He). }
  assert (Hgone : ∀ r, r ∉ refs rest → (calls r q ≤ 3)%nat).
  { intros r Hr. destruct (decide (r = ref msg)) as [->|Hne]; [lia|].
    apply H2. rewrite Hqu. simpl. set_solver. }
  assert (Hflight : ∀ (b : bool) r,
    match (if b then Some AwaitDelay else None) with
    | Some (AwaitSend m') => if decide (ref m' = r) then 1%nat else 0%nat
    | _ => 0%nat
    end = 0%nat) by (by intros []).
  rewrite (send_settled_eq ok w rw q msg rest) by done. intros [= <-].
  unfold places in *. rewrite Hqu in *.
  destruct ok; [destruct w|].
  - split; unfold calls, in_flight, places in *; simpl.
    + intros e He. specialize (Hothers e He). lia.
    + done.
    + by rewrite <- perm_delivered.
    + intros r. by rewrite <- perm_delivered.
  - case_bool_decide as Hthird.
    + destruct rest as [|nxt rest'].
      * assert (Hp := perm_delivered (ref msg) [] (delivered q) (dropped q) (lost q)).
        simpl in Hp, H3, H4.
        split; unfold calls, in_flight, places in *; simpl; rewrite ?Hflight.
        -- intros e He. by apply elem_of_nil in He.
        -- done.
        -- rewrite app_nil_r. by rewrite <- Hp.
        -- intros r. rewrite app_nil_r. by rewrite <- Hp.
      * assert (Hnxt : 0 ≤ attempts nxt ≤ 2).
        { apply Forall_cons in Hatts as [_ Hatts].
          by apply Forall_cons in Hatts as [? _]. }
        assert (Hp := perm_delivered (ref msg) (ref nxt :: refs rest') (delivered q)
                        (dropped q) (lost q)).
        simpl in Hp, H3, H4.
        split; unfold calls, in_flight, places in *; simpl; rewrite ?Hflight.
        -- intros e He. specialize (Hothers e ltac:(by right)). lia.
        -- intros r Hr. destruct (decide (r = ref nxt)) as [->|Hne].
           ++ specialize (Hothers nxt ltac:(by left)). lia.
           ++ apply Hgone. simpl. set_solver.
        -- rewrite <- perm_lost. simpl. by rewrite <- Hp.
        -- intros r. rewrite <- perm_lost. simpl. by rewrite <- Hp.
    + split; unfold calls, in_flight, places in *; simpl; rewrite ?Hflight.
      * intros e He. specialize (Hothers e He). lia.
      * done.
      * by rewrite <- perm_delivered.
      * intros r. by rewrite <- perm_delivered.
  - case_bool_decide as Hthird.
    + split; unfold calls, in_flight, places in *; simpl; rewrite ?Hflight.
      * intros e He. specialize (Hothers e He). lia.
      * done.
      * by rewrite <- perm_dropped.
      * intros r. by rewrite <- perm_dropped.
    + split; unfold calls, in_flight, places in *; simpl; rewrite ?Hflight.
      * intros e [->|He]%elem_of_cons; [simpl; lia|].
        specialize (Hothers e He). lia.
      * intros r Hr. by apply H2.
      * done.
      * done.
Qed.

Lemma audit_idle l p a k n att d x lo :
  (∀ m, a ≠ Some (AwaitSend m)) →
  audit (mk l p a k n att d x lo) → ∀ p' a' k',
  (∀ m, a' ≠ Some (AwaitSend m)) → audit (mk l p' a' k' n att d x lo).
Proof.
  intros Ha [H1 H2 H3 H4] p' a' k' Ha'.
  split; unfold calls, in_flight, places in *; simpl in *; try done.
  intros e He. specialize (H1 e He).
  destruct a as [[m|]|]; [by destruct (Ha m)| |];
    (destruct a' as [[m'|]|]; [by destruct (Ha' m')|lia|lia]).
Qed.

Lemma audit_delay_elapsed q q' : audit q → delay_elapsed q = Some q' → audit q'.
Proof.
  unfold delay_elapsed. destruct (awaiting q) as [[msg|]|] eqn:Ha; try done.
  intros Hq [= <-]. destruct q as [l p a k n att d x lo]. simpl in Ha. subst a.
  unfold finish. simpl. by apply (audit_idle l p (Some AwaitDelay) k).
Qed.

Lemma audit_timers q k :
  audit q →
  audit (mk (queue q) (processing q) (awaiting q) k (next_ref q) (attempted q)
            (delivered q) (dropped q) (lost q)).
Proof. intros [H1 H2 H3 H4]. by split. Qed.

Lemma audit_timer_fired ready q q' :
  wf q → audit q → timer_fired ready q = Some q' → audit q'.
Proof.
  intros Hq Ha. unfold timer_fired.
  destruct (timers q) as [|k]; [done|]. intros [= <-].
  apply audit_process; [|by apply audit_timers].
  destruct Hq as [W1 W2 W3 W4]. by split.
Qed.

Lemma audit_step s e s' :
  wf (Bot.messageQueue s) → audit (Bot.messageQueue s) → Bot.step s e = Some s' →
  audit (Bot.messageQueue s').
Proof.
  intros Hq Ha.
  destruct e as [uuid now m w|update adminNumber sw| |ok w rw| | |ok sw uuid now m w];
    simpl.
  - intros [= <-]. by apply audit_add.
  - intros [= <-]. unfold Bot.handleConnectionUpdate.
    destruct (Bot.qr update), (Bot.connection update) as [[| |]|], sw, adminNumber;
      simpl; try done; try (by apply audit_process);
      unfold Bot.handleReconnect; by repeat case_bool_decide.
  - intros [= <-]. unfold Bot.handleReconnect. by case_bool_decide.
  - unfold Bot.lift. destruct (send_settled _ _ _ _) as [q'|] eqn:Hs; [|done].
    simpl. intros [= <-]. by eapply audit_send_settled.
  - unfold Bot.lift. destruct (delay_elapsed _) as [q'|] eqn:Hs; [|done].
    simpl. intros [= <-]. by eapply audit_delay_elapsed.
  - unfold Bot.lift. destruct (timer_fired _ _) as [q'|] eqn:Hs; [|done].
    simpl. intros [= <-]. by eapply audit_timer_fired.
  - unfold Bot.notify_settled. destruct (Bot.opening s) as [|k]; [done|].
    destruct (ok && sw); [|destruct w]; intros [= <-]; unfold Bot.with_queue;
      cbn [Bot.messageQueue Bot.isBotReady].
    + by apply audit_process.
    + apply audit_process; [by apply wf_add|by apply audit_add].
    + by apply audit_add.
Qed.

Lemma audit_run evs : ∀ s s',
  wf (Bot.messageQueue s) → audit (Bot.messageQueue s) → Bot.run s evs = Some s' →
  wf (Bot.messageQueue s') ∧ audit (Bot.messageQueue s').
Proof.
  induction evs as [|e evs IH]; simpl; intros s s' Hs Ha.
  - by intros [= <-].
  - destruct (Bot.step s e) as [s1|] eqn:He; [|done].
    apply IH; [by eapply queue_wf_step|by eapply audit_step].
Qed.

Lemma process_lost b q : lost (process b q) = lost q.
Proof.
  unfold process. destruct (_ || _ || _); [done|]. by destruct (queue q).
Qed.

Lemma add_lost uuid now m w b q : lost (add uuid now m w b q) = lost q.
Proof. unfold add. destruct w; [by rewrite process_lost|done]. Qed.

(** A step whose writes succeed loses nothing. *)
Lemma lost_step s e s' :
  Bot.written_ok e = true → Bot.step s e = Some s' →
  lost (Bot.messageQueue s') = lost (Bot.messageQueue s).
Proof.
  destruct e as [uuid now m w|update adminNumber sw| |ok w rw| | |ok sw uuid now m w];
    simpl; intros Hw.
  - intros [= <-]. unfold Bot.with_queue. cbn [Bot.messageQueue]. apply add_lost.
  - intros [= <-]. unfold Bot.handleConnectionUpdate, Bot.with_queue.
    destruct (Bot.qr update), (Bot.connection update) as [[| |]|], sw, adminNumber;
      cbn [Bot.messageQueue negb]; rewrite ?process_lost; try done;
      unfold Bot.handleReconnect; by repeat case_bool_decide.
  - intros [= <-]. unfold Bot.handleReconnect. by case_bool_decide.
  - subst w. unfold Bot.lift.
    destruct (send_settled _ _ _ _) as [q'|] eqn:Hs; [|done].
    intros [= <-]. simpl. unfold send_settled in Hs.
    destruct (awaiting (Bot.messageQueue s)) as [[msg|]|]; try done.
    destruct ok; injection Hs as <-; [done|].
    unfold caught. by case_bool_decide.
  - unfold Bot.lift. destruct (delay_elapsed _) as [q'|] eqn:Hs; [|done].
    intros [= <-]. simpl. unfold delay_elapsed in Hs.
    destruct (awaiting (Bot.messageQueue s)) as [[msg|]|]; try done.
    by injection Hs as <-.
  - unfold Bot.lift. destruct (timer_fired _ _) as [q'|] eqn:Hs; [|done].
    intros [= <-]. cbn [Bot.messageQueue]. unfold timer_fired in Hs.
    destruct (timers _); [done|]. injection Hs as <-. by rewrite process_lost.
  - unfold Bot.notify_settled. destruct (Bot.opening s) as [|k]; [done|].
    destruct (ok && sw); [|destruct w]; intros [= <-]; unfold Bot.with_queue;
      cbn [Bot.messageQueue Bot.isBotReady]; by rewrite ?process_lost, ?add_lost.
Qed.

Lemma lost_run evs : ∀ s s',
  Forall (λ e, Bot.written_ok e = true) evs → Bot.run s evs = Some s' →
  lost (Bot.messageQueue s') = lost (Bot.messageQueue s).
Proof.
  induction evs as [|e evs IH]; simpl; intros s s' Hall.
  - by intros [= <-].
  - destruct (Bot.step s e) as [s1|] eqn:He; [|done].
    apply Forall_cons in Hall as [Hw Hall]. intros Hrun.
    rewrite (IH s1 s' Hall Hrun). by eapply lost_step.
Qed.

(** X12.  Bounded retry.  In any run of the bot from its start, whatever the
    producers, the connection, the transport and the disk do, the transport
    is called at most three times for any one entry of the queue. *)
Theorem transport_called_at_most_thrice loaded evs s r :
  Forall (λ x, 0 ≤ attempts x ≤ 2) loaded →
  Bot.run (Bot.init loaded) evs = Some s →
  (calls r (Bot.messageQueue s) ≤ 3)%nat.
Proof.
  intros Hl Hrun.
  destruct (audit_run evs (Bot.init loaded) s) as [Hq [H1 H2 _ _]];
    [by apply queue_wf_init|apply audit_new|done|].
  destruct (decide (r ∈ refs (queue (Bot.messageQueue s)))) as [Hin|Hn];
    [|by apply H2].
  apply list_elem_of_fmap in Hin as (e & -> & He).
  specialize (H1 e He).
  assert (Hatt : 0 ≤ attempts e ≤ 2).
  { assert (Hall := ok_attempts _ _ _ (wf_data _ Hq)).
    by eapply Forall_forall in Hall. }
  unfold in_flight in H1.
  destruct (awaiting (Bot.messageQueue s)) as [[m|]|]; [destruct (decide _)|..]; lia.
Qed.

(** X13.  Nothing is duplicated, and nothing is lost unless a write fails.
    In any run of the bot from its start, every entry created so far (loaded
    at start or pushed by [add]) is in exactly one place: still in the
    array, delivered, given up after a third refusal, or removed by the
    [catch] block after a write error; no entry is recorded twice.  In a run
    in which every write succeeds the last place is empty: every entry is
    in the array, delivered or given up. *)
Theorem every_entry_in_one_place loaded evs s :
  Forall (λ x, 0 ≤ attempts x ≤ 2) loaded →
  Bot.run (Bot.init loaded) evs = Some s →
  NoDup (places (Bot.messageQueue s)) ∧
  (∀ r, (r < next_ref (Bot.messageQueue s))%nat ↔ r ∈ places (Bot.messageQueue s)) ∧
  (Forall (λ e, Bot.written_ok e = true) evs → lost (Bot.messageQueue s) = []).
Proof.
  intros Hl Hrun.
  destruct (audit_run evs (Bot.init loaded) s) as [_ [_ _ H3 H4]];
    [by apply queue_wf_init|apply audit_new|done|].
  split; [done|]. split; [done|]. intros Hall.
  by rewrite (lost_run evs (Bot.init loaded) s Hall Hrun).
Qed.

Lemma transport_called_at_most_thrice_witness :
  ∃ s, Bot.run (Bot.init []) refused_thrice = Some s ∧
    attempted (Bot.messageQueue s) = [0; 0; 0]%nat ∧
    (calls 0 (Bot.messageQueue s) ≤ 3)%nat.
Proof.
  destruct (Bot.run (Bot.init []) refused_thrice) as [s|] eqn:H;
    [|vm_compute in H; discriminate].
  exists s. split; [reflexivity|]. split.
  - vm_compute in H. by injection H as <-.
  - apply (transport_called_at_most_thrice [] refused_thrice); [constructor|exact H].
Defined.

Lemma every_entry_in_one_place_witness :
  ∃ s, Bot.run (Bot.init []) Bot.write_error_events = Some s ∧
    places (Bot.messageQueue s) = [0; 1]%nat ∧
    NoDup (places (Bot.messageQueue s)).
Proof.
  destruct (Bot.run (Bot.init []) Bot.write_error_events) as [s|] eqn:H;
    [|vm_compute in H; discriminate].
  exists s. split; [reflexivity|]. split.
  - vm_compute in H. by injection H as <-.
  - by destruct (every_entry_in_one_place [] Bot.write_error_events s);
      [constructor|exact H|].
Defined.

End QueueAuditFacts.

(** ** The supervisor: restarts *)

Section SupervisorFacts.
Import Bot Supervisor.

Lemma handleReconnect_arms s :
  0 ≤ reconnectAttempts s →
  ∃ delay, start_timers (handleReconnect s) = start_timers s ++ [delay] ∧
    5000 ≤ delay ≤ 60000 ∧ 0 ≤ reconnectAttempts (handleReconnect s).
Proof.
  intros Hn. unfold handleReconnect, MAX_RECONNECT_ATTEMPTS, RECONNECT_INTERVAL.
  case_bool_decide as Hc; simpl.
  - exists 30000. repeat split; lia.
  - eexists. split; [done|].
    assert (0 < 2 ^ (reconnectAttempts s + 1 - 1)) by (apply Z.pow_pos_nonneg; lia).
    lia.
Qed.

Lemma failures_cons e evs :
  failures (e :: evs) = ((if failure e then 1 else 0) + failures evs)%nat.
Proof.
  unfold failures. rewrite filter_cons. by destruct (failure e); simpl.
Qed.

Lemma paced_step s e s' :
  paced s → step s e = Some s' →
  paced s' ∧
  length (start_timers s') =
    (length (start_timers s) + if failure e then 1 else 0)%nat.
Proof.
  intros [Hn Hd] Hs.
  assert (∀ s0, paced s0 →
    paced (handleReconnect s0) ∧
    length (start_timers (handleReconnect s0)) = (length (start_timers s0) + 1)%nat)
    as Hrec.
  { intros s0 [Hn0 Hd0].
    destruct (handleReconnect_arms s0 Hn0) as (delay & Ht & Hb & Hn1).
    unfold paced. rewrite Ht.
    split; [split; [done|]|].
    - apply Forall_app. split; [done|]. by apply Forall_singleton.
    - rewrite length_app. simpl. lia. }
  destruct e as [uuid now m w|update adminNumber sw| |ok w rw| | |ok sw uuid now m w];
    simpl in Hs.
  - injection Hs as <-. unfold with_queue. simpl. split; [by split|by rewrite Nat.add_0_r].
  - injection Hs as <-. unfold handleConnectionUpdate, with_queue. simpl.
    set (s1 := if qr update then _ else s).
    assert (paced s1 ∧ start_timers s1 = start_timers s) as [[Hn1 Hd1] Ht1].
    { subst s1. destruct (qr update); simpl; [|done]. by repeat split. }
    destruct (connection update) as [[| |]|]; simpl.
    + rewrite Ht1. split; [by split|by rewrite Nat.add_0_r].
    + destruct sw, adminNumber; simpl; rewrite Ht1;
        (split; [split; [simpl; lia|done]|by rewrite Nat.add_0_r]).
    + case_bool_decide as Hl; simpl.
      * destruct (Hrec (mk false (reconnectAttempts s1) (messageQueue s1)
                           (opening s1) (start_timers s1))) as [Hp Hlen];
          [by split|].
        split; [done|]. rewrite Hlen. simpl. by rewrite Ht1.
      * rewrite Ht1. split; [by split|by rewrite Nat.add_0_r].
    + rewrite Ht1. split; [by split|by rewrite Nat.add_0_r].
  - injection Hs as <-. destruct (Hrec s) as [Hp Hlen]; [by split|]. done.
  - unfold lift in Hs. destruct (MessageQueue.send_settled _ _ _ _); [|done].
    injection Hs as <-. simpl. split; [by split|by rewrite Nat.add_0_r].
  - unfold lift in Hs. destruct (MessageQueue.delay_elapsed _); [|done].
    injection Hs as <-. simpl. split; [by split|by rewrite Nat.add_0_r].
  - unfold lift in Hs. destruct (MessageQueue.timer_fired _ _); [|done].
    injection Hs as <-. simpl. split; [by split|by rewrite Nat.add_0_r].
  - unfold notify_settled in Hs. destruct (opening s); [done|].
    destruct (ok && sw); [|destruct w]; injection Hs as <-;
      unfold with_queue; simpl; (split; [by split|by rewrite Nat.add_0_r]).
Qed.

Lemma paced_run evs s s' :
  paced s → run s evs = Some s' →
  paced s' ∧ length (start_timers s') = (length (start_timers s) + failures evs)%nat.
Proof.
  revert s. induction evs as [|e evs IH]; intros s Hp Hr.
  - injection Hr as <-. split; [done|]. unfold failures. simpl. lia.
  - simpl in Hr. destruct (step s e) as [s1|] eqn:Hs; [|done].
    destruct (paced_step s e s1 Hp Hs) as [Hp1 Hl1].
    destruct (IH s1 Hp1 Hr) as [Hp' Hl'].
    split; [done|]. rewrite Hl', Hl1, failures_cons. lia.
Qed.

(** X14.  Restarts are paced.  In any run of the bot from its start, every
    failure ([startBot] throwing, or the connection closing for a reason
    other than a logout) has armed exactly one restart of [startBot], nothing
    else has armed one, and every restart was armed with a delay between
    5000 ms and 60000 ms. *)
Theorem restarts_are_paced loaded evs s :
  run (init loaded) evs = Some s →
  length (start_timers s) = failures evs ∧
  Forall (λ delay, 5000 ≤ delay ≤ 60000) (start_timers s).
Proof.
  intros Hr.
  destruct (paced_run evs (init loaded) s) as [[_ Hd] Hl]; [|done|].
  - split; simpl; [lia|constructor].
  - by rewrite Hl.
Qed.

Lemma restarts_are_paced_witness :
  ∃ s, run (init []) outage = Some s ∧
    start_timers s =
      [5000; 10000; 20000; 40000; 60000; 60000; 60000; 60000; 60000; 60000;
       30000; 30000] ∧
    length (start_timers s) = failures outage.
Proof.
  destruct (run (init []) outage) as [s|] eqn:Hr; [|vm_compute in Hr; discriminate].
  exists s. split; [done|]. split.
  - vm_compute in Hr. by injection Hr as <-.
  - by destruct (restarts_are_paced [] outage s Hr).
Defined.

End SupervisorFacts.

(** ** The stored messages *)

Section StoreFacts.
Import Store.

Lemma slice_last_all {A} n (l : list A) : (length l ≤ n)%nat → slice_last n l = l.
Proof.
  intros H. unfold slice_last. by replace (length l - n)%nat with 0%nat by lia.
Qed.

Lemma slice_last_length {A} n (l : list A) : (length (slice_last n l) ≤ n)%nat.
Proof. unfold slice_last. rewrite length_drop. lia. Qed.

Lemma slice_last_sublist {A} n (l : list A) : slice_last n l `sublist_of` l.
Proof. apply sublist_drop. Qed.

(** Cutting before more elements arrive does not change what is left after
    cutting again. *)
Lemma slice_last_app {A} n (l r : list A) :
  slice_last n (slice_last n l ++ r) = slice_last n (l ++ r).
Proof.
  destruct (decide (length l ≤ n)%nat) as [H|H]; [by rewrite (slice_last_all n l H)|].
  unfold slice_last. rewrite !length_app, length_drop.
  rewrite <- (drop_app_le l r (length l - n)) by lia.
  rewrite drop_drop. f_equal. lia.
Qed.

Lemma saveMessage_chat chatId sender msg db :
  chat chatId (saveMessage sender msg db) =
    if decide (sender = chatId)
    then slice_last 1000 (chat chatId db ++ [stored_of sender msg])
    else chat chatId db.
Proof.
  unfold saveMessage, chat at 1. simpl. destruct (decide (sender = chatId)) as [->|Hne].
  - rewrite lookup_insert_eq. simpl. case_bool_decide as Hc; [done|].
    symmetry. apply slice_last_all. lia.
  - by rewrite lookup_insert_ne.
Qed.

Lemma clean_chat chatId now db :
  chat chatId (clean now db) =
    filter (λ m, timestamp m * 1000 > now - 7 * 24 * 60 * 60 * 1000) (chat chatId db).
Proof.
  unfold clean, chat. simpl. rewrite lookup_fmap. by destruct (db.1 !! chatId).
Qed.

Lemma chat_empty chatId : chat chatId empty = [].
Proof. unfold chat, empty. simpl. by rewrite lookup_empty. Qed.

Lemma saved_cons e evs :
  saved (e :: evs) = ((if is_save e then 1 else 0) + saved evs)%nat.
Proof. unfold saved. rewrite filter_cons. by destruct (is_save e). Qed.

(** X15.  A chat keeps its last thousand messages.  When messages are saved
    one after the other, each chat holds the last 1000 of what it held
    plus what arrived for it, in the order of arrival. *)
Theorem chat_keeps_last_thousand chatId evs db :
  Forall (λ e, is_save e = true) evs →
  (length (chat chatId db) ≤ 1000)%nat →
  chat chatId (run db evs) = slice_last 1000 (chat chatId db ++ arrivals chatId evs).
Proof.
  revert db. induction evs as [|e evs IH]; intros db Hs Hl.
  - simpl. rewrite app_nil_r. symmetry. by apply slice_last_all.
  - apply Forall_cons in Hs as [He Hs]. destruct e as [sender msg|now]; [|done].
    change (run db (Save sender msg :: evs)) with (run (saveMessage sender msg db) evs).
    rewrite IH; [|done|].
    + rewrite saveMessage_chat. simpl. destruct (decide (sender = chatId)); [|done].
      by rewrite slice_last_app, <- app_assoc.
    + rewrite saveMessage_chat. destruct (decide (sender = chatId)); [|done].
      apply slice_last_length.
Qed.

Lemma chat_keeps_last_thousand_witness :
  length (chat "62811" (run empty (chatter "62811" 1001))) = 1000%nat ∧
  head (chat "62811" (run empty (chatter "62811" 1001))) =
    Some (stored_of "62811" (nth_message 1)) ∧
  chat "62811" (run empty (chatter "62811" 1001)) =
    slice_last 1000 (chat "62811" empty ++ arrivals "62811" (chatter "62811" 1001)).
Proof.
  assert (chat "62811" (run empty (chatter "62811" 1001)) =
    slice_last 1000 (chat "62811" empty ++ arrivals "62811" (chatter "62811" 1001)))
    as H.
  { apply chat_keeps_last_thousand.
    - apply Forall_fmap, Forall_forall. by intros k _.
    - rewrite chat_empty. simpl. lia. }
  split; [rewrite H; by vm_compute|]. split; [|exact H].
  rewrite H. by vm_compute.
Defined.

(** X16.  Under saves and weekly cleanings alike, a chat never holds more
    than 1000 messages, what it holds is part of what it held plus what
    arrived, in the same order, and the counter [messagesReceived] has grown
    by the number of messages saved, whether or not they are still stored. *)
Theorem chat_is_capped_and_ordered chatId evs db :
  (length (chat chatId db) ≤ 1000)%nat →
  (length (chat chatId (run db evs)) ≤ 1000)%nat ∧
  chat chatId (run db evs) `sublist_of` chat chatId db ++ arrivals chatId evs ∧
  default 0 (messagesReceived (run db evs).2) =
    default 0 (messagesReceived db.2) + Z.of_nat (saved evs).
Proof.
  revert db. induction evs as [|e evs IH]; intros db Hl.
  - simpl. rewrite app_nil_r. unfold saved. simpl. split; [done|]. split; [done|lia].
  - destruct e as [sender msg|now].
    + change (run db (Save sender msg :: evs)) with (run (saveMessage sender msg db) evs).
      destruct (IH (saveMessage sender msg db)) as (Hl' & Hsub & Hc).
      { rewrite saveMessage_chat. destruct (decide (sender = chatId)); [|done].
        apply slice_last_length. }
      split; [done|]. split.
      * etrans; [exact Hsub|]. rewrite saveMessage_chat. simpl.
        destruct (decide (sender = chatId)); [|done].
        rewrite (cons_middle (stored_of sender msg) (chat chatId db) (arrivals chatId evs)),
          app_assoc.
        apply sublist_app; [apply slice_last_sublist|done].
      * rewrite Hc, saved_cons. simpl. lia.
    + change (run db (Clean now :: evs)) with (run (clean now db) evs).
      destruct (IH (clean now db)) as (Hl' & Hsub & Hc).
      { rewrite clean_chat. etrans; [apply length_filter|done]. }
      split; [done|]. split.
      * etrans; [exact Hsub|]. rewrite clean_chat. simpl.
        apply sublist_app; [apply sublist_filter|done].
      * rewrite Hc, saved_cons. simpl. lia.
Qed.

Lemma chat_is_capped_and_ordered_witness :
  (length (chat "62811" empty) ≤ 1000)%nat ∧
  (length (chat "62811" (run empty (chatter "62811" 3 ++ [Clean 604802000]))) ≤ 1000)%nat ∧
  chat "62811" (run empty (chatter "62811" 3 ++ [Clean 604802000])) = [] ∧
  default 0 (messagesReceived (run empty (chatter "62811" 3 ++ [Clean 604802000])).2) = 3.
Proof.
  destruct (chat_is_capped_and_ordered "62811" (chatter "62811" 3 ++ [Clean 604802000]) empty)
    as (Hl & _ & Hc); [rewrite chat_empty; simpl; lia|].
  split; [rewrite chat_empty; simpl; lia|]. split; [exact Hl|]. split; [by vm_compute|].
  rewrite Hc. by vm_compute.
Defined.

End StoreFacts.

(** ** The users file *)

Section UserFacts.
Import Store.

Lemma updateUserActivity_other key now uuid phone' name' (users : gmap string User) :
  Otp.digits phone' ≠ key →
  updateUserActivity now uuid phone' name' users !! key = users !! key.
Proof. intros H. unfold updateUserActivity. cbv zeta. by rewrite lookup_insert_ne. Qed.

Lemma activity_existing key cs : ∀ (users : gmap string User) u0,
  users !! key = Some u0 →
  ∃ u, activity cs users !! key = Some u ∧ identity u = identity u0 ∧
    messageCount u =
      match mine key cs with
      | [] => messageCount u0
      | _ => Some (default 0 (messageCount u0) + Z.of_nat (length (mine key cs)))
      end ∧
    lastActive u =
      match last (mine key cs) with
      | Some c => Some (call_now c)
      | None => lastActive u0
      end.
Proof.
  induction cs as [|c cs IH]; intros users u0 Hu.
  - by exists u0.
  - change (activity (c :: cs) users) with
      (activity cs (updateUserActivity (call_now c) (call_uuid c) (call_phone c)
                      (call_name c) users)).
    unfold mine. rewrite filter_cons. fold (mine key cs).
    destruct (decide (Otp.digits (call_phone c) = key)) as [Hk|Hk].
    + destruct (IH (updateUserActivity (call_now c) (call_uuid c) (call_phone c)
                      (call_name c) users) (touch (call_now c) u0))
        as (u & Hl & Hi & Hm & Ha).
      { unfold updateUserActivity. cbv zeta. rewrite Hk, Hu. by rewrite lookup_insert_eq. }
      exists u. split; [done|]. split; [by rewrite Hi|]. split.
      * rewrite Hm. simpl. destruct (mine key cs); simpl; f_equal; lia.
      * rewrite Ha, last_cons. by destruct (last (mine key cs)).
    + apply IH. by rewrite updateUserActivity_other.
Qed.

(** X17.  Activity is counted per number.  For a number the users file does
    not know, after any calls of [updateUserActivity] of which at least one
    has that number's digits, the file holds one record for it: created by
    the first of those calls (its identifier, its name or the digits, its
    instant as [firstSeen]), with [messageCount] the number of those calls
    and [lastActive] the instant of the last one.  Calls for other numbers
    change nothing of it. *)
Theorem activity_is_counted key cs (users : gmap string User) :
  users !! key = None → mine key cs ≠ [] →
  ∃ u c0, activity cs users !! key = Some u ∧ head (mine key cs) = Some c0 ∧
    id u = call_uuid c0 ∧
    name u = (if Otp.truthy (call_name c0) then default key (call_name c0) else key) ∧
    firstSeen u = Some (call_now c0) ∧
    messageCount u = Some (Z.of_nat (length (mine key cs))) ∧
    lastActive u = call_now <$> last (mine key cs).
Proof.
  revert users. induction cs as [|c cs IH]; intros users Hu Hne; [done|].
  change (activity (c :: cs) users) with
    (activity cs (updateUserActivity (call_now c) (call_uuid c) (call_phone c)
                    (call_name c) users)).
  revert Hne. unfold mine. rewrite filter_cons. fold (mine key cs).
  destruct (decide (Otp.digits (call_phone c) = key)) as [Hk|Hk]; intros Hne.
  - destruct (activity_existing key cs
                (updateUserActivity (call_now c) (call_uuid c) (call_phone c)
                   (call_name c) users)
                (touch (call_now c) (first_seen (call_uuid c) (call_name c) key (call_now c))))
      as (u & Hl & Hi & Hm & Ha).
    { unfold updateUserActivity. cbv zeta. rewrite Hk, Hu. by rewrite lookup_insert_eq. }
    exists u, c. split; [done|]. split; [done|].
    unfold identity in Hi. simpl in Hi.
    injection Hi as Hid Hname _ _ _ _ _ _ Hfs.
    repeat split; try done.
    + rewrite Hm. simpl. destruct (mine key cs); simpl; f_equal; lia.
    + rewrite Ha, last_cons. by destruct (last (mine key cs)).
  - apply IH; [|done]. by rewrite updateUserActivity_other.
Qed.

Lemma activity_is_counted_witness :
  ∃ u, activity three_calls ∅ !! "62811" = Some u ∧
    mine "62811" three_calls ≠ [] ∧
    id u = "u-1" ∧ name u = "Ani" ∧ firstSeen u = Some 100 ∧
    messageCount u = Some 2 ∧ lastActive u = Some 300.
Proof.
  destruct (activity_is_counted "62811" three_calls ∅)
    as (u & c0 & Hl & Hh & Hid & Hn & Hf & Hm & Ha); [done|by vm_compute|].
  exists u. vm_compute in Hh. injection Hh as <-.
  split; [exact Hl|]. split; [by vm_compute|]. done.
Defined.

(** X18.  Registration replaces the record.  Whatever the users file held
    for a number, after [registerUser] and any later calls of
    [updateUserActivity] the record is the registered data with
    [registeredAt], and its [messageCount] counts from the registered data's
    own count: what was counted before the registration is gone. *)
Theorem registration_restarts_the_count now phone' data cs (users : gmap string User) :
  ∃ u, activity cs (registerUser now phone' data users) !! Otp.digits phone' = Some u ∧
    identity u = identity (registered now data) ∧
    default 0 (messageCount u) =
      default 0 (messageCount data) + Z.of_nat (length (mine (Otp.digits phone') cs)).
Proof.
  destruct (activity_existing (Otp.digits phone') cs
              (registerUser now phone' data users) (registered now data))
    as (u & Hl & Hi & Hm & _).
  { unfold registerUser. by rewrite lookup_insert_eq. }
  exists u. split; [done|]. split; [done|].
  rewrite Hm. simpl. destruct (mine (Otp.digits phone') cs); simpl; lia.
Qed.

End UserFacts.

(** ** The web server *)

Section ServerFacts.
Import Store Server.

Lemma verify_sessions now sid uid body s :
  activeSessions (verify now sid uid body s).1 = activeSessions s ∨
  ∃ u, activeSessions (verify now sid uid body s).1 = <[sid := u]> (activeSessions s) ∧
    sessionId u = Some sid ∧
    (role u = Some "admin" → Otp.body_adminCode body = Some Otp.ADMIN_SECRET).
Proof.
  unfold verify. case_bool_decide as Ha.
  - right. eexists. by repeat split.
  - destruct (Otp.target_of body) as [target|]; [|by left].
    destruct (verifyOTP now target (Otp.body_code body) (otps s)) as [otps' result].
    destruct (Otp.valid result); simpl; [|by left].
    right. eexists. by repeat split.
Qed.

Lemma admins_from_serve reqs0 reqs s :
  (∀ r, r ∈ reqs → r ∈ reqs0) → admins_from reqs0 s → admins_from reqs0 (serve s reqs).
Proof.
  revert s. induction reqs as [|r reqs IH]; intros s Hin Hs; [done|].
  change (serve s (r :: reqs)) with
    (serve (verify (req_now r) (req_sessionId r) (req_userId r) (req_body r) s).1 reqs).
  apply IH; [intros r' Hr'; apply Hin; by right|].
  intros sid u Hl Hr.
  destruct (verify_sessions (req_now r) (req_sessionId r) (req_userId r) (req_body r) s)
    as [He|(u' & He & Hsid & Hadmin)]; rewrite He in Hl; [by apply Hs|].
  destruct (decide (sid = req_sessionId r)) as [->|Hne].
  - rewrite lookup_insert_eq in Hl. injection Hl as ->.
    exists r. split; [apply Hin; by left|]. by repeat split; [apply Hadmin|..].
  - rewrite lookup_insert_ne in Hl by done. by apply Hs.
Qed.

(** X19.  Admin routes need the secret.  After the server has started and
    answered any requests to the verification route, whatever the OTP and
    users files hold, [requireAuth] and [requireAdmin] let a request through
    only with the session identifier of an earlier request that carried
    [ADMIN_SECRET] as [adminCode]. *)
Theorem admin_needs_secret otps0 users0 reqs header inBody session :
  admin_access header inBody (serve (boot otps0 users0) reqs) = Granted session →
  ∃ r, r ∈ reqs ∧ Otp.body_adminCode (req_body r) = Some Otp.ADMIN_SECRET ∧
    (if Otp.truthy header then header else inBody) = Some (req_sessionId r) ∧
    sessionId session = Some (req_sessionId r).
Proof.
  unfold admin_access, requireAuth, requireAdmin. intros H.
  destruct (if Otp.truthy header then header else inBody) as [sid|]; [|done].
  destruct (activeSessions (serve (boot otps0 users0) reqs) !! sid) as [u|] eqn:Hl; [|done].
  case_bool_decide as Hr; [|done]. injection H as ->.
  destruct (admins_from_serve reqs reqs (boot otps0 users0)) with (sid := sid) (u := session)
    as (r & Hin & Hsec & -> & Hs); try done.
  exists r. by repeat split.
Qed.

Lemma admin_needs_secret_witness :
  admin_access (Some "s-1") None (serve (boot Otp.live_file ∅) two_logins) = AdminOnly ∧
  ∃ session,
    admin_access (Some "s-2") None (serve (boot Otp.live_file ∅) two_logins)
      = Granted session ∧
    sessionId session = Some "s-2".
Proof.
  split; [by vm_compute|].
  destruct (admin_access (Some "s-2") None (serve (boot Otp.live_file ∅) two_logins))
    as [| |session] eqn:H; [vm_compute in H; discriminate..|].
  exists session. split; [done|].
  destruct (admin_needs_secret Otp.live_file ∅ two_logins (Some "s-2") None session H)
    as (r & _ & _ & Hsid & Hs).
  simpl in Hsid. by rewrite Hs, <- Hsid.
Defined.

(** X20.  From the bot's code to a session.  A code saved by [cmdSendOTP] at
    instant [t] and presented to the verification route at any instant up to
    [t + 300000], under any spelling of the number with the same digits,
    opens a session with the role [user], stored under the session
    identifier, and registers the user under the digits of the number; that
    session is refused by the admin routes. *)
Theorem code_opens_user_session t now sid uid phone' target code' s :
  target ≠ "" → sid ≠ "" → Otp.digits target = Otp.digits phone' → now ≤ t + 300000 →
  let s1 := mk (activeSessions s) (Otp.saveOTP t phone' code' (otps s)) (users s) in
  ∃ user s2, verify now sid uid (Otp.otp_request target code') s1 = (s2, Ok sid user) ∧
    id user = uid ∧ name user = target ∧ role user = Some "user" ∧
    activeSessions s2 !! sid = Some user ∧
    users s2 !! Otp.digits target = Some (registered now user) ∧
    admin_access (Some sid) None s2 = AdminOnly.
Proof.
  intros Ht Hsid Hd Hle s1.
  assert (Otp.verifyOTP now target code' (otps s1) =
          (delete target (otps s1), Otp.mkResult true None)) as Hv.
  { apply (verifyOTP_match now target (otps s1) (Otp.mkOtp code' (t + 5 * 60 * 1000) 0)).
    - subst s1. unfold Otp.saveOTP. simpl. rewrite Hd. by rewrite lookup_insert_eq.
    - simpl. lia. }
  unfold verify. rewrite bool_decide_eq_false_2 by done.
  assert (Otp.target_of (Otp.otp_request target code') = Some target) as ->.
  { unfold Otp.target_of. simpl. by destruct target. }
  unfold verifyOTP.
  change (Otp.body_code (Otp.otp_request target code')) with (Some code').
  cbv iota beta. rewrite Hv. simpl.
  eexists _, _. split; [done|]. simpl.
  repeat split.
  - by rewrite lookup_insert_eq.
  - unfold registerUser. by rewrite lookup_insert_eq.
  - unfold admin_access, requireAuth. simpl.
    destruct sid; [done|]. simpl. by rewrite lookup_insert_eq.
Qed.

Lemma code_opens_user_session_witness :
  ∃ user s2,
    verify 5000 "s-1" "u-1" (Otp.otp_request "+62 811" "123456")
      (mk ∅ (Otp.saveOTP 0 "62811" "123456" ∅) ∅) = (s2, Ok "s-1" user) ∧
    users s2 !! "62811" = Some (registered 5000 user) ∧
    admin_access (Some "s-1") None s2 = AdminOnly.
Proof.
  destruct (code_opens_user_session 0 5000 "s-1" "u-1" "62811" "+62 811" "123456" (mk ∅ ∅ ∅))
    as (user & s2 & Hv & _ & _ & _ & _ & Hu & Ha); [done|done|done|lia|].
  by exists user, s2.
Defined.

End ServerFacts.
